(** * Shaka Player Embedded: rational arithmetic, ready states, client lists

    A shallow embedding of the utilities declared in
    [shaka/ShakaPlayerView.h] (the [Rational<T>] template, [ShakaRect<T>],
    [VideoFillMode], [FitVideoToRegion]) and of the media-player header
    ([VideoReadyState], [MediaPlayer::ClientList]).

    [Rational<T>] is embedded at the unsigned integer types, the way the
    header instantiates it ([Rational<uint32_t>] in [FitVideoToRegion]).
    A value of type [T] is a number of [N] not above [T_max]; the product
    of two such values wraps around modulo [2 ^ bits].  The [assert] macro
    of <assert.h> is embedded as compiled without NDEBUG: a failing
    assertion aborts the computation. *)

From Stdlib Require Import Ascii NArith ZArith List Sorted Bool Lia.
Import ListNotations.

Local Open Scope N_scope.

(** ** Computations that may crash

    The constructor of [Rational] asserts, divides, and runs a loop.  Its
    embedding runs in a small monad: a result or a fault, together with
    the list of the [reduce] calls performed so far (a ghost log, which
    the program itself does not keep). *)

Inductive fault : Type :=
| AssertionFailed   (* assert(e) with e false: the process aborts *)
| DivisionByZero    (* x / 0 or x % 0: undefined behaviour *)
| OutOfFuel.        (* the loop was cut short by the embedding *)

Inductive result (A : Type) : Type :=
| Done (a : A)
| Crash (f : fault).

Arguments Done {A} a.
Arguments Crash {A} f.

(** One entry per call of [reduce]: the values behind the two pointers
    at the time of the call. *)
Definition call : Type := (N * N)%type.

Definition M (A : Type) : Type := (list call * result A)%type.

Definition ret {A} (a : A) : M A := ([], Done a).

Definition crash {A} (f : fault) : M A := ([], Crash f).

Definition bind {A B} (m : M A) (k : A -> M B) : M B :=
  match m with
  | (log, Done a) => let (log', r) := k a in (log ++ log', r)
  | (log, Crash f) => (log, Crash f)
  end.

Definition tick (c : call) : M unit := ([c], Done tt).

Definition calls {A} (m : M A) : list call := fst m.

Definition outcome {A} (m : M A) : result A := snd m.

Declare Scope shaka_scope.
Delimit Scope shaka_scope with shaka.

Notation "x <- m ;; k" := (bind m (fun x => k))
  (at level 61, m at next level, right associativity) : shaka_scope.
Notation "' pat <- m ;; k" := (bind m (fun x => match x with pat => k end))
  (at level 61, pat pattern, m at next level, right associativity) : shaka_scope.
Notation "m ;; k" := (bind m (fun _ => k))
  (at level 61, right associativity) : shaka_scope.

Local Open Scope shaka_scope.

(** [assert(e)]. *)
Definition assert (e : bool) : M unit :=
  if e then ret tt else crash AssertionFailed.

(** [a / b] on an unsigned type. *)
Definition divide (a b : N) : M N :=
  if b =? 0 then crash DivisionByZero else ret (a / b).

(** ** The integer type [T] *)

Class UnsignedT : Type := { bits : N }.

(** [uint32_t], the instance used by [FitVideoToRegion]. *)
#[global] Instance uint32_t : UnsignedT := {| bits := 32 |}.

Section RationalT.

Context {T : UnsignedT}.

(** [std::numeric_limits<T>::max()]. *)
Definition T_max : N := 2 ^ bits - 1.

(** Conversion of an unbounded number to [T]. *)
Definition wrap (x : N) : N := x mod 2 ^ bits.

Definition in_T (x : N) : Prop := x <= T_max.

(** [struct Rational { T numerator; T denominator; }]. *)
Record Rational : Type := mkRational { numerator : N; denominator : N }.

(** The canonical zero [{0, 0}]. *)
Definition zero : Rational := mkRational 0 0.

(** [static T gcd(T a, T b)]: the loop
    [while (b != 0) { T temp = a % b; a = b; b = temp; } return a;]
    with a bound on the number of iterations. *)
Fixpoint gcd_loop (fuel : nat) (a b : N) : option N :=
  match fuel with
  | O => None
  | S fuel' =>
      if b =? 0 then Some a
      else let temp := a mod b in gcd_loop fuel' b temp
  end.

(** Enough iterations for every pair of arguments (see [gcd_loop_enough]). *)
Definition gcd_fuel (a b : N) : nat := S (S (N.size_nat a + N.size_nat b)).

Definition gcd (a b : N) : M N :=
  match gcd_loop (gcd_fuel a b) a b with
  | Some g => ret g
  | None => crash OutOfFuel
  end.

(** [static void reduce(T* num, T* den)]: returns the new [*num], [*den]. *)
Definition reduce (num den : N) : M (N * N) :=
  tick (num, den) ;;
  a <- gcd num den ;;
  num' <- divide num a ;;
  den' <- divide den a ;;
  ret (num', den').

(** The private constructor [Rational(T num1, T num2, T den1, T den2)]. *)
Definition Rational4 (num1 num2 den1 den2 : N) : M Rational :=
  if (num1 =? 0) || (num2 =? 0) || (den1 =? 0) || (den2 =? 0) then
    ret (mkRational 0 0)
  else
    '(num1, den1) <- reduce num1 den1 ;;
    '(num1, den2) <- reduce num1 den2 ;;
    '(num2, den1) <- reduce num2 den1 ;;
    '(num2, den2) <- reduce num2 den2 ;;
    q1 <- divide T_max num1 ;;
    assert (num2 <=? q1) ;;
    q2 <- divide T_max den1 ;;
    assert (den2 <=? q2) ;;
    let numerator := wrap (num1 * num2) in
    let denominator := wrap (den1 * den2) in
    g <- gcd numerator denominator ;;
    assert (g =? 1) ;;
    ret (mkRational numerator denominator).

(** The public constructor [Rational(T num, T den) : Rational(num, 1, den, 1)]. *)
Definition Rational2 (num den : N) : M Rational := Rational4 num 1 den 1.

(** The four calls of [reduce] of the private constructor, on their own:
    what they leave in [num1], [num2], [den1], [den2]. *)
Definition four_reductions (num1 num2 den1 den2 : N) : M (N * N * N * N) :=
  '(num1, den1) <- reduce num1 den1 ;;
  '(num1, den2) <- reduce num1 den2 ;;
  '(num2, den1) <- reduce num2 den1 ;;
  '(num2, den2) <- reduce num2 den2 ;;
  ret (num1, num2, den1, den2).

(** [T truncate() const { return numerator / denominator; }] *)
Definition truncate (r : Rational) : M N :=
  divide (numerator r) (denominator r).

(** [Rational<T> inverse() const { return {denominator, numerator}; }]
    The braces call the public constructor. *)
Definition inverse (r : Rational) : M Rational :=
  Rational2 (denominator r) (numerator r).

(** [operator bool() const] *)
Definition operator_bool (r : Rational) : bool :=
  negb (numerator r =? 0) && negb (denominator r =? 0).

(** [bool operator==(const Rational<U>& other) const] *)
Definition operator_eq (r other : Rational) : bool :=
  (numerator r =? numerator other) && (denominator r =? denominator other).

(** [bool operator!=(const Rational<U>& other) const] *)
Definition operator_ne (r other : Rational) : bool := negb (operator_eq r other).

(** [Rational operator*(const Rational<U>& other) const] *)
Definition operator_mul (r other : Rational) : M Rational :=
  Rational4 (numerator r) (numerator other) (denominator r) (denominator other).

(** [Rational operator*(U other) const] *)
Definition operator_mul_num (r : Rational) (other : N) : M Rational :=
  Rational4 (numerator r) other (denominator r) 1.

(** [Rational operator/(const Rational<U>& other) const] *)
Definition operator_div (r other : Rational) : M Rational :=
  Rational4 (numerator r) (denominator other) (denominator r) (numerator other).

(** [Rational operator/(U other) const] *)
Definition operator_div_num (r : Rational) (other : N) : M Rational :=
  Rational4 (numerator r) 1 (denominator r) other.

(** [operator*(T a, const Rational<U>& b) { return Rational<T>{a, 1} * b; }] *)
Definition num_mul_operator (a : N) (b : Rational) : M Rational :=
  x <- Rational2 a 1 ;;
  operator_mul x b.

(** [operator/(T a, const Rational<U>& b) { return b.inverse() * a; }] *)
Definition num_div_operator (a : N) (b : Rational) : M Rational :=
  x <- inverse b ;;
  operator_mul_num x a.

End RationalT.

(** ** The multiplication as the specification words it

    "To compute (a/b) * (c/d), first reduce gcd(a,c), gcd(a,d), gcd(b,c),
    gcd(b,d) pairwise, then multiply the remaining coprime residues."
    This definition follows those words, with [a/b] the left operand and
    [c/d] the right one; it is compared with [operator_mul] below. *)
Definition mul_as_specified {T : UnsignedT} (r other : Rational) : M Rational :=
  let a := numerator r in
  let b := denominator r in
  let c := numerator other in
  let d := denominator other in
  if (a =? 0) || (c =? 0) || (b =? 0) || (d =? 0) then
    ret (mkRational 0 0)
  else
    '(a, c) <- reduce a c ;;
    '(a, d) <- reduce a d ;;
    '(b, c) <- reduce b c ;;
    '(b, d) <- reduce b d ;;
    q1 <- divide T_max a ;;
    assert (c <=? q1) ;;
    q2 <- divide T_max b ;;
    assert (d <=? q2) ;;
    ret (mkRational (wrap (a * c)) (wrap (b * d))).

(** ** What the reductions leave, in terms of [N.gcd] *)

Definition lowest (n d : N) : N * N := (n / N.gcd n d, d / N.gcd n d).

(** The values of [num1], [num2], [den1], [den2] after the four calls of
    [reduce] in [Rational4]. *)
Definition residues (num1 num2 den1 den2 : N) : N * N * N * N :=
  let '(num1, den1) := lowest num1 den1 in
  let '(num1, den2) := lowest num1 den2 in
  let '(num2, den1) := lowest num2 den1 in
  let '(num2, den2) := lowest num2 den2 in
  (num1, num2, den1, den2).

(** The pairs handed to [reduce], in the order of the calls. *)
Definition reductions (num1 num2 den1 den2 : N) : list call :=
  let '(n1a, d1a) := lowest num1 den1 in
  let '(n1b, d2a) := lowest n1a den2 in
  let '(n2a, d1b) := lowest num2 d1a in
  [(num1, den1); (n1a, den2); (num2, d1a); (n2a, d2a)].

(** A value as the constructor leaves it: the canonical zero, or a
    fraction in lowest terms with neither field zero. *)
Definition reduced (r : Rational) : Prop :=
  numerator r <> 0 /\ denominator r <> 0 /\
  N.gcd (numerator r) (denominator r) = 1.

Definition canonical (r : Rational) : Prop := r = zero \/ reduced r.

Definition fields_in_T {T : UnsignedT} (r : Rational) : Prop :=
  in_T (numerator r) /\ in_T (denominator r).

(** The invariant of the specification, with the [gcd] of the program:
    lowest terms, or the canonical zero. *)
Definition in_lowest_terms (r : Rational) : Prop :=
  outcome (gcd (numerator r) (denominator r)) = Done 1.

Definition invariant (r : Rational) : Prop := in_lowest_terms r \/ r = zero.

(** The computations that produce a [Rational]: the public constructor,
    [inverse], and the operators. *)
Inductive produced {T : UnsignedT} : M Rational -> Prop :=
| by_constructor (num den : N) : produced (Rational2 num den)
| by_inverse (r : Rational) : produced (inverse r)
| by_mul (r other : Rational) : produced (operator_mul r other)
| by_mul_num (r : Rational) (other : N) : produced (operator_mul_num r other)
| by_div (r other : Rational) : produced (operator_div r other)
| by_div_num (r : Rational) (other : N) : produced (operator_div_num r other)
| by_num_mul (a : N) (b : Rational) : produced (num_mul_operator a b)
| by_num_div (a : N) (b : Rational) : produced (num_div_operator a b).

(** [(a * b) * b.inverse()] *)
Definition round_trip {T : UnsignedT} (a b : Rational) : M Rational :=
  ab <- operator_mul a b ;;
  inv <- inverse b ;;
  operator_mul ab inv.

(** ** Rectangles and fill modes *)

(** [enum class VideoFillMode : uint8_t] *)
Inductive VideoFillMode : Type :=
| MaintainRatio
| Stretch
| Zoom.

(** [struct ShakaRect { T x; T y; T w; T h; }] at [uint32_t]. *)
Record ShakaRect : Type := mkRect { x : N; y : N; w : N; h : N }.

(** [bool ShakaRect::operator==(const ShakaRect& other) const] *)
Definition rect_eq (r other : ShakaRect) : bool :=
  (x r =? x other) && (y r =? y other) && (w r =? w other) && (h r =? h other).

Module Fit.

(** Modelled from the spec: a step of [FitVideoToRegion], whose body the
    header does not give.  The display aspect ratio is
    [frame.w * sample_aspect_ratio / frame.h], where a sample aspect ratio
    of (0, 0) stands for (1, 1). *)
Definition display_aspect_ratio (frame : ShakaRect) (sample_aspect_ratio : Rational)
  : M Rational :=
  let sar := if operator_bool sample_aspect_ratio then sample_aspect_ratio
             else mkRational 1 1 in
  r <- num_mul_operator (w frame) sar ;;
  operator_div_num r (h frame).

(** Modelled from the spec: a step of [FitVideoToRegion], whose body the
    header does not give.  The largest [width x height] of the given
    aspect ratio inside an [avail_w x avail_h] region, rounded down; zero
    where a side or the ratio is zero, so that nothing is divided by
    zero. *)
Definition largest_inside (aspect : Rational) (avail_w avail_h : N) : M (N * N) :=
  if negb (operator_bool aspect) || (avail_w =? 0) || (avail_h =? 0) then ret (0, 0)
  else
    wr <- operator_mul_num aspect avail_h ;;
    width <- truncate wr ;;
    if width <=? avail_w then ret (width, avail_h)
    else
      inv <- inverse aspect ;;
      hr <- operator_mul_num inv avail_w ;;
      height <- truncate hr ;;
      ret (avail_w, height).

(** Modelled from the spec: a step of [FitVideoToRegion], whose body the
    header does not give.  A [width x height] rectangle centered in
    [outer]. *)
Definition centered (outer : ShakaRect) (width height : N) : ShakaRect :=
  mkRect (wrap (x outer + (w outer - width) / 2))
         (wrap (y outer + (h outer - height) / 2))
         width height.

(** Modelled from the spec: the body of [FitVideoToRegion], which the
    header only declares.  The result is the pair [(src, dest)] that the
    function stores through its two pointers.  [Stretch] draws the whole
    frame on the whole region.  [MaintainRatio] draws the whole frame on
    the largest centered rectangle of the display aspect ratio inside the
    region.  [Zoom] fills the region with the largest centered part of the
    frame whose displayed shape is the region's. *)
Definition FitVideoToRegion (frame bounds : ShakaRect)
    (sample_aspect_ratio : Rational) (mode : VideoFillMode)
  : M (ShakaRect * ShakaRect) :=
  match mode with
  | Stretch => ret (frame, bounds)
  | MaintainRatio =>
      aspect <- display_aspect_ratio frame sample_aspect_ratio ;;
      '(width, height) <- largest_inside aspect (w bounds) (h bounds) ;;
      ret (frame, centered bounds width height)
  | Zoom =>
      let sar := if operator_bool sample_aspect_ratio then sample_aspect_ratio
                 else mkRational 1 1 in
      region <- Rational2 (w bounds) (h bounds) ;;
      aspect <- operator_div region sar ;;
      '(width, height) <- largest_inside aspect (w frame) (h frame) ;;
      ret (centered frame width height, bounds)
  end.

End Fit.

(** ** Ready states *)

(** [enum class VideoReadyState : int8_t] *)
Inductive VideoReadyState : Type :=
| NotAttached
| HaveNothing
| HaveMetadata
| HaveCurrentData
| HaveFutureData
| HaveEnoughData.

(** The enumerators' values. *)
Definition underlying (s : VideoReadyState) : Z :=
  match s with
  | NotAttached => -1
  | HaveNothing => 0
  | HaveMetadata => 1
  | HaveCurrentData => 2
  | HaveFutureData => 3
  | HaveEnoughData => 4
  end%Z.

(** The built-in [<] of a scoped enumeration compares the values. *)
Definition ready_lt (a b : VideoReadyState) : bool :=
  (underlying a <? underlying b)%Z.

(** The range of [int8_t]. *)
Definition fits_int8 (v : Z) : bool := ((-128 <=? v) && (v <=? 127))%Z.

(** [enum class VideoPlaybackState : uint8_t] *)
Inductive VideoPlaybackState : Type :=
| Detached
| Initializing
| Paused
| Seeking
| Buffering
| WaitingForKey
| Playing
| Ended
| Errored.

(** ** Client lists *)

Module ClientList.

Section Events.

(** The payload types of the callbacks that the model leaves abstract:
    [std::shared_ptr<MediaTrack>], [std::shared_ptr<TextTrack>], [double],
    [std::string] and [void*]. *)
Context {MediaTrack TextTrack double string user_data : Type}.

(** A [Client*]: the address of an observer object. *)
Definition Client : Type := nat.

(** One constructor per virtual method of [MediaPlayer::Client]. *)
Inductive Event : Type :=
| OnAddAudioTrack (track : MediaTrack)
| OnRemoveAudioTrack (track : MediaTrack)
| OnAddVideoTrack (track : MediaTrack)
| OnRemoveVideoTrack (track : MediaTrack)
| OnAddTextTrack (track : TextTrack)
| OnRemoveTextTrack (track : TextTrack)
| OnReadyStateChanged (old_state new_state : VideoReadyState)
| OnPlaybackStateChanged (old_state new_state : VideoPlaybackState)
| OnPlaybackRateChanged (old_rate new_rate : double)
| OnError (error : string)
| OnAttachMse
| OnAttachSource
| OnDetach
| OnPlay
| OnSeeking
| OnWaitingForKey
| OnUserEvent (name : string) (data : user_data).

(** Modelled from the spec: the private [ClientList::Impl], which the
    header only names.  It holds the registered clients in the order of
    their registration. *)
Definition Impl : Type := list Client.

(** Modelled from the spec: the constructor [ClientList::ClientList],
    absent from the header.  A new list has no client. *)
Definition empty : Impl := [].

(** Modelled from the spec: the membership test behind [AddClient],
    absent from the header.  Clients are compared by address. *)
Definition registered (impl : Impl) (client : Client) : bool :=
  existsb (Nat.eqb client) impl.

(** Modelled from the spec: the body of [ClientList::AddClient], absent
    from the header.  An already registered client is left alone, a new
    one goes to the end. *)
Definition AddClient (client : Client) (impl : Impl) : Impl :=
  if registered impl client then impl else impl ++ [client].

(** Modelled from the spec: the body of [ClientList::RemoveClient], absent
    from the header. *)
Definition RemoveClient (client : Client) (impl : Impl) : Impl :=
  filter (fun c => negb (Nat.eqb client c)) impl.

(** Modelled from the spec: the bodies of the [ClientList::On*] methods,
    absent from the header.  Each calls the same method on every
    registered client, first registered first; the result is the list of
    the calls made. *)
Definition Fire (ev : Event) (impl : Impl) : list (Client * Event) :=
  map (fun c => (c, ev)) impl.

(** The number of calls that [client] received. *)
Definition received (client : Client) (log : list (Client * Event)) : nat :=
  length (filter (fun d => Nat.eqb client (fst d)) log).

End Events.

(** A call of [AddClient] or [RemoveClient]. *)
Inductive request : Type :=
| Add (client : Client)
| Remove (client : Client).

Definition serve (impl : Impl) (r : request) : Impl :=
  match r with
  | Add c => AddClient c impl
  | Remove c => RemoveClient c impl
  end.

Definition run (rs : list request) (impl : Impl) : Impl := fold_left serve rs impl.

(** The history of a sequence of requests, told without the list: for
    each client, the position of the request that began its present
    registration, if it is registered. *)
Definition history : Type := Client -> option nat.

Definition nobody : history := fun _ => None.

Definition note (i : nat) (r : request) (past : history) : history :=
  fun c =>
    match r with
    | Add c' =>
        if Nat.eqb c' c then
          match past c with Some t => Some t | None => Some i end
        else past c
    | Remove c' => if Nat.eqb c' c then None else past c
    end.

Fixpoint since (i : nat) (rs : list request) (past : history) : history :=
  match rs with
  | [] => past
  | r :: rs' => since (S i) rs' (note i r past)
  end.

(** [c1] registered before [c2]. *)
Definition earlier (past : history) (c1 c2 : Client) : Prop :=
  exists t1 t2, past c1 = Some t1 /\ past c2 = Some t2 /\ (t1 < t2)%nat.

(** Every client in [impl] registered before all those behind it. *)
Definition in_order_of (past : history) (impl : Impl) : Prop :=
  StronglySorted (earlier past) impl.

(** What the list and the history of the same requests have in common. *)
Definition agrees (i : nat) (past : history) (impl : Impl) : Prop :=
  NoDup impl /\
  (forall c, In c impl <-> past c <> None) /\
  in_order_of past impl /\
  (forall c t, past c = Some t -> (t < i)%nat).

End ClientList.

(** ** Configuration keys

    [std::string] as the list of its characters. *)

Module StdString.

(** [size_type find(char ch, size_type pos) const]: the first index not
    below [pos] that holds [ch]; [None] stands for [npos]. *)
Fixpoint find (s : list ascii) (ch : ascii) (pos : nat) : option nat :=
  match s with
  | [] => None
  | c :: s' =>
      match pos with
      | O => if Ascii.eqb c ch then Some O else option_map S (find s' ch O)
      | S pos' => option_map S (find s' ch pos')
      end
  end.

(** [insert(size_type pos, const char* str)]: [None] stands for the
    [std::out_of_range] thrown when [pos] is beyond the end. *)
Definition insert (s : list ascii) (pos : nat) (str : list ascii)
  : option (list ascii) :=
  if (pos <=? length s)%nat then Some (firstn pos s ++ str ++ skipn pos s)
  else None.

End StdString.

(** How a function on strings ends. *)
Inductive attempt (A : Type) : Type :=
| Returned (a : A)
| Thrown        (* std::out_of_range *)
| Unfinished.   (* the loop was cut short by the embedding *)

Arguments Returned {A} a.
Arguments Thrown {A}.
Arguments Unfinished {A}.

Definition dot : ascii := "."%char.

Definition backslash : ascii := "\"%char.

(** The loop of [EscapeKeySystem]:
    [while ((pos = ret.find('.', pos)) != npos) { ret.insert(pos, "\\"); pos += 2; }]
    with a bound on the number of iterations. *)
Fixpoint escape_loop (fuel : nat) (ret : list ascii) (pos : nat)
  : attempt (list ascii) :=
  match fuel with
  | O => Unfinished
  | S fuel' =>
      match StdString.find ret dot pos with
      | None => Returned ret
      | Some pos =>
          match StdString.insert ret pos [backslash] with
          | None => Thrown
          | Some ret => escape_loop fuel' ret (pos + 2)
          end
      end
  end.

(** [inline std::string EscapeKeySystem(const std::string& key_system)] *)
Definition EscapeKeySystem (key_system : list ascii) : attempt (list ascii) :=
  let ret := key_system in
  let pos := O in
  escape_loop (S (length key_system)) ret pos.

(** The literals ["drm.servers."] and ["drm.advanced."]. *)
Definition drm_servers : list ascii :=
  ["d"; "r"; "m"; "."; "s"; "e"; "r"; "v"; "e"; "r"; "s"; "."]%char.

Definition drm_advanced : list ascii :=
  ["d"; "r"; "m"; "."; "a"; "d"; "v"; "a"; "n"; "c"; "e"; "d"; "."]%char.

(** [inline std::string LicenseServerConfig(const std::string& key_system)] *)
Definition LicenseServerConfig (key_system : list ascii) : attempt (list ascii) :=
  match EscapeKeySystem key_system with
  | Returned escaped => Returned (drm_servers ++ escaped)
  | Thrown => Thrown
  | Unfinished => Unfinished
  end.

(** [inline std::string AdvancedDrmConfig(const std::string& key_system,
                                          const std::string& property)] *)
Definition AdvancedDrmConfig (key_system property : list ascii)
  : attempt (list ascii) :=
  match EscapeKeySystem key_system with
  | Returned escaped => Returned (drm_advanced ++ escaped ++ [dot] ++ property)
  | Thrown => Thrown
  | Unfinished => Unfinished
  end.

(** The key system with a backslash put before each dot. *)
Fixpoint escaped (s : list ascii) : list ascii :=
  match s with
  | [] => []
  | c :: s' =>
      if Ascii.eqb c dot then backslash :: dot :: escaped s'
      else c :: escaped s'
  end.

(** The way back: a backslash that stands before a dot is dropped. *)
Fixpoint unescaped (s : list ascii) : list ascii :=
  match s with
  | [] => []
  | c :: s' =>
      match s' with
      | d :: _ =>
          if Ascii.eqb c backslash && Ascii.eqb d dot then unescaped s'
          else c :: unescaped s'
      | [] => [c]
      end
  end.

(** * Properties *)

(** ** The monad *)

Lemma bind_ret {A B} (a : A) (k : A -> M B) : bind (ret a) k = k a.
Proof. unfold bind, ret. destruct (k a); reflexivity. Qed.

Lemma bind_done {A B} (log : list call) (a : A) (k : A -> M B) :
  bind (log, Done a) k = (log ++ calls (k a), outcome (k a)).
Proof. unfold bind, calls, outcome. destruct (k a); reflexivity. Qed.

Lemma bind_crash {A B} (log : list call) (f : fault) (k : A -> M B) :
  bind (log, Crash f) k = (log, Crash f).
Proof. reflexivity. Qed.

Lemma divide_nonzero (a b : N) : b <> 0 -> divide a b = ret (a / b).
Proof.
  intros Hb. unfold divide.
  destruct (N.eqb_spec b 0); [contradiction | reflexivity].
Qed.

(** ** The loop of [gcd] ends and computes the greatest common divisor *)

Lemma size_nat_le (a b : N) : a <= b -> (N.size_nat a <= N.size_nat b)%nat.
Proof.
  intros Hab. destruct a as [|p], b as [|q]; simpl; try lia.
  destruct (Pos.eq_dec p q) as [->|Hne]; [lia|].
  apply Pos.size_nat_monotone. lia.
Qed.

Lemma size_nat_half (r a : N) :
  2 * r <= a -> a <> 0 -> (N.size_nat r < N.size_nat a)%nat.
Proof.
  intros Hr Ha. destruct r as [|p].
  - destruct a; [contradiction | simpl; destruct p; simpl; lia].
  - apply size_nat_le in Hr. simpl in Hr. simpl. lia.
Qed.

Lemma mod_le_half (a b : N) : b <> 0 -> b <= a -> 2 * (a mod b) <= a.
Proof.
  intros Hb Hba.
  pose proof (N.div_mod a b Hb) as Hdm.
  pose proof (N.mod_lt a b Hb) as Hlt.
  assert (Hq : a / b <> 0).
  { intros Hq. apply N.div_small_iff in Hq; [lia | exact Hb]. }
  nia.
Qed.

Lemma gcd_loop_ordered (fuel : nat) :
  forall a b, b <= a -> (N.size_nat a + N.size_nat b < fuel)%nat ->
  gcd_loop fuel a b = Some (N.gcd a b).
Proof.
  induction fuel as [|fuel IH]; intros a b Hba Hfuel; [lia|].
  simpl. destruct (N.eqb_spec b 0) as [->|Hb].
  - now rewrite N.gcd_0_r.
  - pose proof (N.mod_lt a b Hb) as Hlt.
    rewrite IH.
    + rewrite (N.gcd_comm b), N.Lcm0.gcd_mod. apply f_equal, N.gcd_comm.
    + lia.
    + assert (N.size_nat (a mod b) < N.size_nat a)%nat.
      { apply size_nat_half; [now apply mod_le_half | lia]. }
      lia.
Qed.

Lemma gcd_loop_enough (fuel : nat) (a b : N) :
  (S (N.size_nat a + N.size_nat b) < fuel)%nat ->
  gcd_loop fuel a b = Some (N.gcd a b).
Proof.
  intros Hfuel. destruct (N.le_gt_cases b a) as [Hba|Hab].
  - apply gcd_loop_ordered; [exact Hba | lia].
  - destruct fuel as [|fuel]; [lia|]. simpl.
    destruct (N.eqb_spec b 0) as [->|Hb]; [lia|].
    rewrite N.mod_small by exact Hab.
    rewrite gcd_loop_ordered; [now rewrite N.gcd_comm | lia | lia].
Qed.

Lemma gcd_spec (a b : N) : gcd a b = ret (N.gcd a b).
Proof.
  unfold gcd. rewrite gcd_loop_enough; [reflexivity | unfold gcd_fuel; lia].
Qed.

(** ** The constructor on a few inputs *)

Example Rational_6_4 :
  Rational2 (T := uint32_t) 6 4
  = ([(6, 4); (3, 1); (1, 2); (1, 1)], Done (mkRational 3 2)).
Proof. reflexivity. Qed.

Example Rational_0_5 : Rational2 (T := uint32_t) 0 5 = ([], Done zero).
Proof. reflexivity. Qed.

Example Rational_max :
  outcome (Rational2 (T := uint32_t) 4294967295 4294967294)
  = Done (mkRational 4294967295 4294967294).
Proof. reflexivity. Qed.

Example product_too_large :
  outcome (operator_mul (T := uint32_t) (mkRational 65536 1) (mkRational 65536 1))
  = Crash AssertionFailed.
Proof. reflexivity. Qed.

Example quotient_16_9_by_4_3 :
  outcome (operator_div (T := uint32_t) (mkRational 16 9) (mkRational 4 3))
  = Done (mkRational 4 3).
Proof. reflexivity. Qed.

(** ** Coprime numbers *)

Lemma coprime_divide_l (a a' b : N) :
  N.gcd a b = 1 -> (a' | a) -> N.gcd a' b = 1.
Proof.
  intros Hab Hdiv. apply N.divide_1_r. rewrite <- Hab.
  apply N.gcd_greatest.
  - eapply N.divide_trans; [apply N.gcd_divide_l | exact Hdiv].
  - apply N.gcd_divide_r.
Qed.

Lemma coprime_divide_r (a b b' : N) :
  N.gcd a b = 1 -> (b' | b) -> N.gcd a b' = 1.
Proof.
  intros Hab Hdiv. rewrite N.gcd_comm.
  apply coprime_divide_l with (a := b); [now rewrite N.gcd_comm | exact Hdiv].
Qed.

Lemma coprime_mul_l (a b c : N) :
  N.gcd a c = 1 -> N.gcd b c = 1 -> N.gcd (a * b) c = 1.
Proof.
  intros Hac Hbc. apply N.divide_1_r. rewrite <- Hbc.
  apply N.gcd_greatest; [|apply N.gcd_divide_r].
  apply N.gauss with (m := a); [apply N.gcd_divide_l|].
  rewrite N.gcd_comm. apply coprime_divide_r with (b := c); [exact Hac|].
  apply N.gcd_divide_r.
Qed.

Lemma coprime_mul_r (a b c : N) :
  N.gcd a b = 1 -> N.gcd a c = 1 -> N.gcd a (b * c) = 1.
Proof.
  intros Hab Hac. rewrite N.gcd_comm.
  apply coprime_mul_l; now rewrite N.gcd_comm.
Qed.

Lemma quotient_divides (n g : N) : (g | n) -> (n / g | n).
Proof.
  intros [k Hk]. destruct (N.eq_dec g 0) as [->|Hg].
  - subst n. rewrite N.mul_0_r. apply N.divide_0_r.
  - exists g. rewrite Hk, N.div_mul by exact Hg. apply N.mul_comm.
Qed.

(** The two quotients by the greatest common divisor. *)
Lemma lowest_spec (n d : N) :
  n <> 0 ->
  let g := N.gcd n d in
  g <> 0 /\ n = n / g * g /\ d = d / g * g /\
  n / g <> 0 /\ N.gcd (n / g) (d / g) = 1.
Proof.
  intros Hn g.
  assert (Hg : g <> 0).
  { unfold g. intros H0. apply N.gcd_eq_0_l in H0. contradiction. }
  assert (Hgn : n = n / g * g).
  { destruct (N.gcd_divide_l n d) as [k Hk]. fold g in Hk.
    rewrite Hk at 2. rewrite N.div_mul by exact Hg. exact Hk. }
  assert (Hgd : d = d / g * g).
  { destruct (N.gcd_divide_r n d) as [k Hk]. fold g in Hk.
    rewrite Hk at 2. rewrite N.div_mul by exact Hg. exact Hk. }
  repeat split; try assumption.
  - intros H0. rewrite H0 in Hgn. simpl in Hgn. contradiction.
  - apply N.gcd_div_gcd; [exact Hg | reflexivity].
Qed.

Lemma lowest_coprime (n d : N) :
  N.gcd n d = 1 -> lowest n d = (n, d).
Proof. intros H. unfold lowest. rewrite H, !N.div_1_r. reflexivity. Qed.

(** ** One call of [reduce] *)

Lemma reduce_spec {T : UnsignedT} (n d : N) :
  n <> 0 -> reduce n d = ([(n, d)], Done (lowest n d)).
Proof.
  intros Hn. destruct (lowest_spec n d Hn) as (Hg & _).
  unfold reduce, tick. rewrite bind_done, gcd_spec, bind_ret.
  rewrite !divide_nonzero, !bind_ret by exact Hg.
  reflexivity.
Qed.

(** ** Range of [T] *)

Section Range.

Context {T : UnsignedT}.

Lemma pow_bits_pos : 0 < 2 ^ bits.
Proof. apply N.neq_0_lt_0, N.pow_nonzero. discriminate. Qed.

Lemma wrap_small (v : N) : v <= T_max -> wrap v = v.
Proof.
  unfold T_max, wrap. intros Hv. pose proof pow_bits_pos.
  apply N.mod_small. lia.
Qed.

Lemma wrap_in_T (v : N) : wrap v <= T_max.
Proof.
  unfold T_max, wrap. pose proof pow_bits_pos as Hp.
  pose proof (N.mod_lt v (2 ^ bits)). lia.
Qed.

(** The test of the two overflow assertions. *)
Lemma fits_iff (a b : N) :
  a <> 0 -> (b <=? T_max / a) = (a * b <=? T_max).
Proof.
  intros Ha. apply Bool.eq_iff_eq_true. rewrite !N.leb_le. split; intros H.
  - pose proof (N.Div0.mul_div_le T_max a). nia.
  - apply N.div_le_lower_bound; assumption.
Qed.

End Range.

(** ** What the four reductions leave *)

Lemma residues_spec (n1 n2 d1 d2 a b c d : N) :
  n1 <> 0 -> n2 <> 0 -> d1 <> 0 -> d2 <> 0 ->
  residues n1 n2 d1 d2 = (a, b, c, d) ->
  exists g1 g2 g3 g4,
    (n1 = a * g2 * g1 /\ d1 = c * g3 * g1 /\
     n2 = b * g4 * g3 /\ d2 = d * g4 * g2) /\
    (a <> 0 /\ b <> 0 /\ c <> 0 /\ d <> 0) /\
    (N.gcd a c = 1 /\ N.gcd a d = 1 /\ N.gcd b c = 1 /\ N.gcd b d = 1).
Proof.
  intros Hn1 Hn2 Hd1 Hd2. unfold residues, lowest.
  set (g1 := N.gcd n1 d1). set (a1 := n1 / g1). set (c1 := d1 / g1).
  set (g2 := N.gcd a1 d2). set (a2 := a1 / g2). set (e1 := d2 / g2).
  set (g3 := N.gcd n2 c1). set (b1 := n2 / g3). set (c2 := c1 / g3).
  set (g4 := N.gcd b1 e1). set (b2 := b1 / g4). set (e2 := e1 / g4).
  intros Heq. injection Heq as <- <- <- <-.
  destruct (lowest_spec n1 d1 Hn1) as (Hg1 & En1 & Ed1 & Ha1 & C1).
  fold g1 a1 c1 in Hg1, En1, Ed1, Ha1, C1.
  destruct (lowest_spec a1 d2 Ha1) as (Hg2 & Ea1 & Ed2 & Ha2 & C2).
  fold g2 a2 e1 in Hg2, Ea1, Ed2, Ha2, C2.
  destruct (lowest_spec n2 c1 Hn2) as (Hg3 & En2 & Ec1 & Hb1 & C3).
  fold g3 b1 c2 in Hg3, En2, Ec1, Hb1, C3.
  destruct (lowest_spec b1 e1 Hb1) as (Hg4 & Eb1 & Ee1 & Hb2 & C4).
  fold g4 b2 e2 in Hg4, Eb1, Ee1, Hb2, C4.
  clearbody g1 a1 c1 g2 a2 e1 g3 b1 c2 g4 b2 e2.
  assert (Hc2 : c2 <> 0).
  { intros H0. subst c2. rewrite N.mul_0_l in Ec1. subst c1.
    rewrite N.mul_0_l in Ed1. contradiction. }
  assert (He2 : e2 <> 0).
  { intros H0. subst e2. rewrite N.mul_0_l in Ee1. subst e1.
    rewrite N.mul_0_l in Ed2. contradiction. }
  exists g1, g2, g3, g4. repeat split; try assumption.
  - rewrite <- Ea1. exact En1.
  - rewrite <- Ec1. exact Ed1.
  - rewrite <- Eb1. exact En2.
  - rewrite <- Ee1. exact Ed2.
  - apply coprime_divide_l with (a := a1).
    + apply coprime_divide_r with (b := c1); [exact C1|].
      exists g3. now rewrite N.mul_comm.
    + exists g2. now rewrite N.mul_comm.
  - apply coprime_divide_r with (b := e1); [exact C2|].
    exists g4. now rewrite N.mul_comm.
  - apply coprime_divide_l with (a := b1); [exact C3|].
    exists g4. now rewrite N.mul_comm.
Qed.

(** The products of the residues are coprime. *)
Lemma residues_coprime (a b c d : N) :
  N.gcd a c = 1 -> N.gcd a d = 1 -> N.gcd b c = 1 -> N.gcd b d = 1 ->
  N.gcd (a * b) (c * d) = 1.
Proof.
  intros Hac Had Hbc Hbd.
  apply coprime_mul_l; apply coprime_mul_r; assumption.
Qed.

Lemma reductions_spec (n1 n2 d1 d2 : N) :
  reductions n1 n2 d1 d2 =
  [(n1, d1);
   (fst (lowest n1 d1), d2);
   (n2, snd (lowest n1 d1));
   (fst (lowest n2 (snd (lowest n1 d1))),
    snd (lowest (fst (lowest n1 d1)) d2))].
Proof. reflexivity. Qed.

(** ** The private constructor, case by case *)

Section Constructor.

Context {T : UnsignedT}.

Lemma Rational4_zero (n1 n2 d1 d2 : N) :
  n1 = 0 \/ n2 = 0 \/ d1 = 0 \/ d2 = 0 ->
  Rational4 n1 n2 d1 d2 = ret zero.
Proof.
  intros H. unfold Rational4.
  assert (Ht : (n1 =? 0) || (n2 =? 0) || (d1 =? 0) || (d2 =? 0) = true).
  { rewrite !Bool.orb_true_iff, !N.eqb_eq. tauto. }
  rewrite Ht. reflexivity.
Qed.

Lemma Rational4_nonzero (n1 n2 d1 d2 a b c d : N) :
  n1 <> 0 -> n2 <> 0 -> d1 <> 0 -> d2 <> 0 ->
  residues n1 n2 d1 d2 = (a, b, c, d) ->
  Rational4 n1 n2 d1 d2 =
  (reductions n1 n2 d1 d2,
   if (a * b <=? T_max) && (c * d <=? T_max)
   then Done (mkRational (a * b) (c * d))
   else Crash AssertionFailed).
Proof.
  intros Hn1 Hn2 Hd1 Hd2 Hres.
  destruct (residues_spec _ _ _ _ _ _ _ _ Hn1 Hn2 Hd1 Hd2 Hres)
    as (g1 & g2 & g3 & g4 & _ & (Ha & Hb & Hc & Hd) & (C1 & C2 & C3 & C4)).
  pose proof (residues_coprime _ _ _ _ C1 C2 C3 C4) as Hco.
  revert Hres. unfold Rational4, residues, reductions.
  assert (Ht : (n1 =? 0) || (n2 =? 0) || (d1 =? 0) || (d2 =? 0) = false).
  { rewrite !Bool.orb_false_iff, !N.eqb_neq. tauto. }
  rewrite Ht. clear Ht.
  destruct (lowest_spec n1 d1 Hn1) as (_ & _ & _ & Ha1 & _).
  rewrite (reduce_spec n1 d1 Hn1), bind_done.
  destruct (lowest n1 d1) as [a1 c1] eqn:E1. simpl in Ha1.
  replace (n1 / N.gcd n1 d1) with a1 in Ha1
    by (unfold lowest in E1; congruence).
  destruct (lowest_spec a1 d2 Ha1) as (_ & _ & _ & _ & _).
  rewrite (reduce_spec a1 d2 Ha1), bind_done.
  destruct (lowest a1 d2) as [a2 e1] eqn:E2.
  rewrite (reduce_spec n2 c1 Hn2), bind_done.
  destruct (lowest n2 c1) as [b1 c2] eqn:E3.
  assert (Hb1 : b1 <> 0).
  { destruct (lowest_spec n2 c1 Hn2) as (_ & _ & _ & H & _).
    unfold lowest in E3. congruence. }
  rewrite (reduce_spec b1 e1 Hb1), bind_done.
  destruct (lowest b1 e1) as [b2 e2] eqn:E4.
  intros Heq. injection Heq as -> -> -> ->.
  rewrite (divide_nonzero _ a Ha), bind_ret, (fits_iff a b Ha).
  destruct (N.leb_spec (a * b) T_max) as [Hab|Hab]; simpl.
  - rewrite (divide_nonzero _ c Hc), bind_ret, (fits_iff c d Hc).
    destruct (N.leb_spec (c * d) T_max) as [Hcd|Hcd]; simpl.
    + rewrite !wrap_small by assumption.
      rewrite gcd_spec, Hco. reflexivity.
    + reflexivity.
  - reflexivity.
Qed.

Lemma four_reductions_spec (n1 n2 d1 d2 : N) :
  n1 <> 0 -> n2 <> 0 ->
  four_reductions n1 n2 d1 d2
  = (reductions n1 n2 d1 d2, Done (residues n1 n2 d1 d2)).
Proof.
  intros Hn1 Hn2. unfold four_reductions, residues, reductions.
  destruct (lowest_spec n1 d1 Hn1) as (_ & _ & _ & Ha1 & _).
  rewrite (reduce_spec n1 d1 Hn1), bind_done.
  destruct (lowest n1 d1) as [a1 c1] eqn:E1.
  replace (n1 / N.gcd n1 d1) with a1 in Ha1
    by (unfold lowest in E1; congruence).
  rewrite (reduce_spec a1 d2 Ha1), bind_done.
  destruct (lowest a1 d2) as [a2 e1] eqn:E2.
  rewrite (reduce_spec n2 c1 Hn2), bind_done.
  destruct (lowest n2 c1) as [b1 c2] eqn:E3.
  assert (Hb1 : b1 <> 0).
  { destruct (lowest_spec n2 c1 Hn2) as (_ & _ & _ & H & _).
    unfold lowest in E3. congruence. }
  rewrite (reduce_spec b1 e1 Hb1), bind_done.
  destruct (lowest b1 e1) as [b2 e2] eqn:E4.
  reflexivity.
Qed.

End Constructor.

(** ** Every path through the private constructor *)

Lemma outcome_bind {A B} (m : M A) (k : A -> M B) :
  outcome (bind m k) =
  match outcome m with
  | Done a => outcome (k a)
  | Crash f => Crash f
  end.
Proof.
  destruct m as [log [a|f]]; [|reflexivity].
  rewrite bind_done. reflexivity.
Qed.

Lemma reduced_invariant (r : Rational) : canonical r -> invariant r.
Proof.
  intros [->|(_ & _ & Hg)]; [now right | left].
  unfold in_lowest_terms. rewrite gcd_spec, Hg. reflexivity.
Qed.

Section Outcomes.

Context {T : UnsignedT}.

(** The private constructor returns a canonical value within the range
    of [T], equal as a fraction to [(num1 * num2) / (den1 * den2)], or an
    assertion fails; nothing else happens. *)
Lemma Rational4_cases (n1 n2 d1 d2 : N) :
  (exists r, outcome (Rational4 n1 n2 d1 d2) = Done r /\
             canonical r /\ fields_in_T r /\
             (r = zero <-> n1 = 0 \/ n2 = 0 \/ d1 = 0 \/ d2 = 0) /\
             numerator r * (d1 * d2) = n1 * n2 * denominator r) \/
  outcome (Rational4 n1 n2 d1 d2) = Crash AssertionFailed.
Proof.
  destruct (N.eq_dec n1 0) as [Z1|Hn1];
    [left; exists zero; rewrite Rational4_zero by tauto;
     unfold canonical, fields_in_T, in_T; simpl; intuition lia|].
  destruct (N.eq_dec n2 0) as [Z2|Hn2];
    [left; exists zero; rewrite Rational4_zero by tauto;
     unfold canonical, fields_in_T, in_T; simpl; intuition lia|].
  destruct (N.eq_dec d1 0) as [Z3|Hd1];
    [left; exists zero; rewrite Rational4_zero by tauto;
     unfold canonical, fields_in_T, in_T; simpl; intuition lia|].
  destruct (N.eq_dec d2 0) as [Z4|Hd2];
    [left; exists zero; rewrite Rational4_zero by tauto;
     unfold canonical, fields_in_T, in_T; simpl; intuition lia|].
  destruct (residues n1 n2 d1 d2) as [[[a b] c] d] eqn:Hres.
  rewrite (Rational4_nonzero _ _ _ _ _ _ _ _ Hn1 Hn2 Hd1 Hd2 Hres).
  destruct (residues_spec _ _ _ _ _ _ _ _ Hn1 Hn2 Hd1 Hd2 Hres)
    as (g1 & g2 & g3 & g4 & (E1 & E2 & E3 & E4) &
        (Ha & Hb & Hc & Hd) & (C1 & C2 & C3 & C4)).
  unfold outcome; simpl.
  destruct (N.leb_spec (a * b) T_max) as [Hab|Hab]; simpl; [|now right].
  destruct (N.leb_spec (c * d) T_max) as [Hcd|Hcd]; simpl; [|now right].
  left. eexists. split; [reflexivity|].
  assert (Hnz : a * b <> 0) by nia.
  split; [|split; [|split]].
  - right. unfold reduced; simpl. repeat split; try nia.
    now apply residues_coprime.
  - split; assumption.
  - unfold zero. split; [intros H; injection H; intros; contradiction | tauto].
  - simpl. rewrite E1, E2, E3, E4. ring.
Qed.

Lemma Rational2_total (num den : N) :
  in_T num -> in_T den ->
  exists r, outcome (Rational2 num den) = Done r /\ canonical r /\
            (r = zero <-> num = 0 \/ den = 0) /\
            numerator r * den = num * denominator r.
Proof.
  unfold in_T. intros Hn Hd. unfold Rational2.
  destruct (N.eq_dec num 0) as [Z1|Hn0];
    [exists zero; rewrite Rational4_zero by tauto;
     unfold canonical; simpl; intuition lia|].
  destruct (N.eq_dec den 0) as [Z2|Hd0];
    [exists zero; rewrite Rational4_zero by tauto;
     unfold canonical; simpl; intuition lia|].
  assert (H1 : 1 <> 0) by discriminate.
  destruct (residues num 1 den 1) as [[[a b] c] d] eqn:Hres.
  destruct (residues_spec _ _ _ _ _ _ _ _ Hn0 H1 Hd0 H1 Hres)
    as (g1 & g2 & g3 & g4 & (E1 & E2 & E3 & E4) &
        (Ha & Hb & Hc & Hd') & (C1 & C2 & C3 & C4)).
  rewrite (Rational4_nonzero _ _ _ _ _ _ _ _ Hn0 H1 Hd0 H1 Hres).
  assert (Hb1 : b = 1 /\ g4 = 1 /\ g3 = 1).
  { symmetry in E3. apply N.eq_mul_1 in E3. destruct E3 as [E3 ->].
    apply N.eq_mul_1 in E3. tauto. }
  destruct Hb1 as (-> & -> & ->).
  assert (Hd1 : d = 1 /\ g2 = 1).
  { symmetry in E4. rewrite N.mul_1_r in E4. apply N.eq_mul_1 in E4. tauto. }
  destruct Hd1 as (-> & ->).
  rewrite !N.mul_1_r in *.
  assert (Hfit : (a <=? T_max) && (c <=? T_max) = true).
  { assert (Hg1 : g1 <> 0).
    { intros ->. rewrite N.mul_0_r in E1. contradiction. }
    assert (a <= num) by (rewrite E1; nia).
    assert (c <= den) by (rewrite E2; nia).
    rewrite Bool.andb_true_iff, !N.leb_le. lia. }
  unfold outcome; simpl. rewrite Hfit.
  eexists. split; [reflexivity|]. split; [|split].
  - right. unfold reduced; simpl. tauto.
  - unfold zero. split; [intros H; injection H; intros; contradiction | tauto].
  - simpl. rewrite E1, E2. ring.
Qed.

End Outcomes.

Section Produced.

Context {T : UnsignedT}.

Lemma Rational4_canonical (n1 n2 d1 d2 : N) :
  (exists r, outcome (Rational4 n1 n2 d1 d2) = Done r /\
             canonical r /\ fields_in_T r) \/
  outcome (Rational4 n1 n2 d1 d2) = Crash AssertionFailed.
Proof.
  destruct (Rational4_cases n1 n2 d1 d2) as [(r & H & Hc & Hf & _)|H];
    [left; exists r; tauto | now right].
Qed.

Lemma produced_cases (m : M Rational) :
  produced m ->
  (exists r, outcome m = Done r /\ canonical r /\ fields_in_T r) \/
  outcome m = Crash AssertionFailed.
Proof.
  intros Hm. destruct Hm; try apply Rational4_canonical.
  - unfold num_mul_operator. rewrite outcome_bind.
    destruct (Rational4_canonical a 1 1 1) as [(x & Hx & _)|Hx];
      unfold Rational2; rewrite Hx; [apply Rational4_canonical | now right].
  - unfold num_div_operator. rewrite outcome_bind.
    destruct (Rational4_canonical (denominator b) 1 (numerator b) 1)
      as [(x & Hx & _)|Hx];
      unfold inverse, Rational2; rewrite Hx;
      [apply Rational4_canonical | now right].
Qed.

(** C1. Every value that the public constructor [Rational(num, den)]
    returns, for [num] and [den] of type [T], and it always returns one,
    is in lowest terms by the program's own [gcd] or is the canonical
    zero [{0, 0}].  The same holds of every value returned by [inverse]
    and by the multiplication and division operators; the only other way
    these end is a failed overflow assertion. *)
Theorem constructed_values_keep_invariant :
  (forall num den, in_T num -> in_T den ->
     exists r, outcome (Rational2 num den) = Done r /\ invariant r) /\
  (forall m, produced m ->
     (exists r, outcome m = Done r /\ invariant r) \/
     outcome m = Crash AssertionFailed).
Proof.
  split.
  - intros num den Hn Hd.
    destruct (Rational2_total num den Hn Hd) as (r & Hr & Hc & _).
    exists r. split; [exact Hr | now apply reduced_invariant].
  - intros m Hm.
    destruct (produced_cases m Hm) as [(r & Hr & Hc & _)|Hr]; [left | now right].
    exists r. split; [exact Hr | now apply reduced_invariant].
Qed.

End Produced.

Lemma constructed_values_keep_invariant_witness :
  (exists r, outcome (Rational2 (T := uint32_t) 1920 1080) = Done r /\ invariant r) /\
  ((exists r, outcome (operator_mul (T := uint32_t) (mkRational 16 9) (mkRational 3 4))
              = Done r /\ invariant r) \/
   outcome (operator_mul (T := uint32_t) (mkRational 16 9) (mkRational 3 4))
   = Crash AssertionFailed).
Proof.
  split.
  - apply (proj1 (constructed_values_keep_invariant (T := uint32_t)) 1920 1080);
      unfold in_T; vm_compute; discriminate.
  - apply (proj2 (constructed_values_keep_invariant (T := uint32_t))).
    apply by_mul.
Defined.

Section Overflow.

Context {T : UnsignedT}.

(** C3. Let the four calls of [reduce] in the constructor leave the
    residues [a], [b] of the numerators and [c], [d] of the denominators.
    When [a * b] or [c * d] is above [std::numeric_limits<T>::max()], the
    constructor ends in a failed assertion.  Whenever it returns, the
    fields are the exact products, unwrapped, and the value is the
    fraction [(num1 * num2) / (den1 * den2)]. *)
Theorem overflow_fails_loudly (num1 num2 den1 den2 a b c d : N) :
  num1 <> 0 -> num2 <> 0 -> den1 <> 0 -> den2 <> 0 ->
  outcome (four_reductions num1 num2 den1 den2) = Done (a, b, c, d) ->
  (T_max < a * b \/ T_max < c * d ->
   outcome (Rational4 num1 num2 den1 den2) = Crash AssertionFailed) /\
  (a * b <= T_max -> c * d <= T_max ->
   outcome (Rational4 num1 num2 den1 den2) = Done (mkRational (a * b) (c * d))) /\
  (forall r, outcome (Rational4 num1 num2 den1 den2) = Done r ->
     numerator r = a * b /\ denominator r = c * d /\
     a * b <= T_max /\ c * d <= T_max /\
     numerator r * (den1 * den2) = num1 * num2 * denominator r).
Proof.
  intros Hn1 Hn2 Hd1 Hd2 Hres.
  rewrite (four_reductions_spec _ _ _ _ Hn1 Hn2) in Hres.
  assert (Hres' : residues num1 num2 den1 den2 = (a, b, c, d))
    by (unfold outcome in Hres; simpl in Hres; congruence).
  clear Hres. rename Hres' into Hres.
  rewrite (Rational4_nonzero _ _ _ _ _ _ _ _ Hn1 Hn2 Hd1 Hd2 Hres).
  destruct (residues_spec _ _ _ _ _ _ _ _ Hn1 Hn2 Hd1 Hd2 Hres)
    as (g1 & g2 & g3 & g4 & (E1 & E2 & E3 & E4) & _).
  unfold outcome; simpl.
  destruct (N.leb_spec (a * b) T_max) as [Hab|Hab]; simpl.
  - destruct (N.leb_spec (c * d) T_max) as [Hcd|Hcd]; simpl.
    + split; [intros [H|H]; lia|]. split; [reflexivity|].
      intros r Hr. injection Hr as <-. simpl.
      repeat split; try assumption.
      rewrite E1, E2, E3, E4. ring.
    + split; [reflexivity|]. split; [lia | discriminate].
  - split; [reflexivity|]. split; [lia | discriminate].
Qed.

End Overflow.

Lemma overflow_fails_loudly_witness :
  outcome (Rational4 (T := uint32_t) 65537 65537 3 1) = Crash AssertionFailed /\
  outcome (Rational4 (T := uint32_t) 1048576 15625 1 1048576)
  = Done (mkRational (1 * 15625) (1 * 1)).
Proof.
  split.
  - apply (overflow_fails_loudly (T := uint32_t) 65537 65537 3 1 65537 65537 3 1);
      try discriminate; [reflexivity|].
    left. reflexivity.
  - apply (overflow_fails_loudly (T := uint32_t) 1048576 15625 1 1048576 1 15625 1 1);
      try discriminate; reflexivity.
Defined.

Section ZeroOperand.

Context {T : UnsignedT}.

(** C4. When a numerator or a denominator handed to the constructor is
    zero, the result is the canonical zero [{0, 0}] and [reduce] is not
    called at all.  So the product of any rational with one whose
    numerator or denominator is zero, on either side, is [{0, 0}], and
    [Rational(0, 5) == Rational(0, 0)]. *)
Theorem zero_operand_gives_canonical_zero :
  (forall num1 num2 den1 den2,
     num1 = 0 \/ num2 = 0 \/ den1 = 0 \/ den2 = 0 ->
     Rational4 num1 num2 den1 den2 = ([], Done zero)) /\
  (forall num den, num = 0 \/ den = 0 -> Rational2 num den = ([], Done zero)) /\
  (forall r z, operator_bool z = false ->
     operator_mul r z = ([], Done zero) /\ operator_mul z r = ([], Done zero)) /\
  (forall r, operator_mul_num r 0 = ([], Done zero)) /\
  (exists p q, outcome (Rational2 0 5) = Done p /\
               outcome (Rational2 0 0) = Done q /\ operator_eq p q = true).
Proof.
  assert (H4 : forall num1 num2 den1 den2,
             num1 = 0 \/ num2 = 0 \/ den1 = 0 \/ den2 = 0 ->
             Rational4 num1 num2 den1 den2 = ([], Done zero)).
  { intros. now apply Rational4_zero. }
  repeat split.
  - exact H4.
  - intros num den H. apply H4. tauto.
  - apply H4. unfold operator_bool in H.
    rewrite Bool.andb_false_iff, !Bool.negb_false_iff, !N.eqb_eq in H. tauto.
  - apply H4. unfold operator_bool in H.
    rewrite Bool.andb_false_iff, !Bool.negb_false_iff, !N.eqb_eq in H. tauto.
  - intros r. apply H4. tauto.
  - exists zero, zero. unfold Rational2.
    rewrite !H4 by tauto. repeat split.
Qed.

End ZeroOperand.

Lemma zero_operand_gives_canonical_zero_witness :
  Rational4 (T := uint32_t) 7 0 3 2 = ([], Done zero) /\
  operator_mul (T := uint32_t) (mkRational 16 9) (mkRational 0 5) = ([], Done zero).
Proof.
  split.
  - apply (proj1 (zero_operand_gives_canonical_zero (T := uint32_t)) 7 0 3 2).
    right; left; reflexivity.
  - apply (proj1 (proj2 (proj2 (zero_operand_gives_canonical_zero (T := uint32_t))))
             (mkRational 16 9) (mkRational 0 5)).
    reflexivity.
Defined.

(** C6, as the specification states it, fails at [Rational(0, 5)]: the
    denominator is not zero, the constructor returns [{0, 0}], and the
    program's [gcd] of its fields is [0]. *)
Lemma zero_numerator_not_in_lowest_terms :
  5 <> 0 /\
  outcome (Rational2 (T := uint32_t) 0 5) = Done zero /\
  outcome (gcd (numerator zero) (denominator zero)) = Done 0 /\
  ~ in_lowest_terms zero.
Proof.
  split; [discriminate|]. split; [reflexivity|]. split; [reflexivity|].
  unfold in_lowest_terms. vm_compute. discriminate.
Qed.

Section NonZero.

Context {T : UnsignedT}.

(** C6, amended.  For every numerator [n] and denominator [d] of type
    [T], with [d] different from zero, the constructor returns.  If [n]
    is not zero either, the fields of the result have greatest common
    divisor [1] by the program's [gcd], and the result is the fraction
    [n / d]; if [n] is zero, the result is the canonical zero [{0, 0}]. *)
Theorem nonzero_construction_in_lowest_terms (n d : N) :
  in_T n -> in_T d -> d <> 0 ->
  exists r, outcome (Rational2 n d) = Done r /\
            (n <> 0 ->
             outcome (gcd (numerator r) (denominator r)) = Done 1 /\
             numerator r <> 0 /\ denominator r <> 0 /\
             numerator r * d = n * denominator r) /\
            (n = 0 -> r = zero).
Proof.
  intros Hn Hd Hd0.
  destruct (Rational2_total n d Hn Hd) as (r & Hr & Hc & Hz & Hv).
  exists r. split; [exact Hr|]. split.
  - intros Hn0. destruct Hc as [->|(Hp & Hq & Hg)].
    + exfalso. destruct (proj1 Hz eq_refl); contradiction.
    + rewrite gcd_spec, Hg. repeat split; assumption.
  - intros Hn0. apply Hz. now left.
Qed.

(** C10. [truncate] divides the numerator by the denominator without a
    test.  With a denominator other than zero it returns the quotient
    rounded down, the [q] with [q * denominator <= numerator <
    (q + 1) * denominator]; with a zero denominator it divides by zero.
    The canonical zero, which [Rational(0, 5)] returns, is such a
    value. *)
Theorem truncate_needs_nonzero_denominator :
  (forall r, denominator r <> 0 ->
     truncate r = ([], Done (numerator r / denominator r)) /\
     numerator r / denominator r * denominator r <= numerator r /\
     numerator r < (numerator r / denominator r + 1) * denominator r) /\
  (forall r, denominator r = 0 -> outcome (truncate r) = Crash DivisionByZero) /\
  (forall r, (exists q, outcome (truncate r) = Done q) <-> denominator r <> 0) /\
  outcome (Rational2 0 5) = Done zero /\
  outcome (r <- Rational2 0 5 ;; truncate r) = Crash DivisionByZero.
Proof.
  assert (Hz : forall r, denominator r = 0 ->
                         outcome (truncate r) = Crash DivisionByZero).
  { intros r H. unfold truncate, divide. rewrite H. reflexivity. }
  assert (Hnz : forall r, denominator r <> 0 ->
                          truncate r = ([], Done (numerator r / denominator r))).
  { intros r H. unfold truncate. now rewrite divide_nonzero. }
  split; [|split; [exact Hz | split; [|split]]].
  - intros r H. split; [now apply Hnz|].
    pose proof (N.Div0.mul_div_le (numerator r) (denominator r)).
    pose proof (N.mul_succ_div_gt (numerator r) (denominator r) H).
    lia.
  - intros r. split.
    + intros [q Hq] H. rewrite (Hz r H) in Hq. discriminate.
    + intros H. eexists. rewrite (Hnz r H). reflexivity.
  - unfold Rational2. rewrite Rational4_zero by tauto. reflexivity.
  - rewrite outcome_bind. unfold Rational2.
    rewrite Rational4_zero by tauto. reflexivity.
Qed.

End NonZero.

Lemma nonzero_construction_in_lowest_terms_witness :
  exists r, outcome (Rational2 (T := uint32_t) 1920 1080) = Done r /\
            (1920 <> 0 ->
             outcome (gcd (numerator r) (denominator r)) = Done 1 /\
             numerator r <> 0 /\ denominator r <> 0 /\
             numerator r * 1080 = 1920 * denominator r) /\
            (1920 = 0 -> r = zero).
Proof.
  apply (nonzero_construction_in_lowest_terms (T := uint32_t) 1920 1080);
    unfold in_T; vm_compute; discriminate.
Defined.

Lemma truncate_needs_nonzero_denominator_witness :
  truncate (mkRational 16 9) = ([], Done (16 / 9)) /\
  outcome (truncate (mkRational 0 0)) = Crash DivisionByZero.
Proof.
  split.
  - apply (proj1 (truncate_needs_nonzero_denominator (T := uint32_t))
             (mkRational 16 9)).
    simpl. discriminate.
  - apply (proj1 (proj2 (truncate_needs_nonzero_denominator (T := uint32_t)))
             (mkRational 0 0)).
    reflexivity.
Defined.

(** ** Ready states *)

(** C9. The enumerators of [VideoReadyState] have the values -1, 0, 1,
    2, 3, 4, all of them values of [int8_t]; each state is below the
    next under the comparison of those values, and that comparison is a
    strict total order on the six states. *)
Theorem ready_states_totally_ordered :
  (underlying NotAttached = (-1)%Z /\ underlying HaveNothing = 0%Z /\
   underlying HaveMetadata = 1%Z /\ underlying HaveCurrentData = 2%Z /\
   underlying HaveFutureData = 3%Z /\ underlying HaveEnoughData = 4%Z) /\
  (forall s, fits_int8 (underlying s) = true) /\
  (ready_lt NotAttached HaveNothing = true /\
   ready_lt HaveNothing HaveMetadata = true /\
   ready_lt HaveMetadata HaveCurrentData = true /\
   ready_lt HaveCurrentData HaveFutureData = true /\
   ready_lt HaveFutureData HaveEnoughData = true) /\
  (forall a, ready_lt a a = false) /\
  (forall a b c, ready_lt a b = true -> ready_lt b c = true -> ready_lt a c = true) /\
  (forall a b, ready_lt a b = true \/ a = b \/ ready_lt b a = true).
Proof.
  repeat split.
  - intros []; reflexivity.
  - intros []; reflexivity.
  - unfold ready_lt. intros a b c. rewrite !Z.ltb_lt. lia.
  - intros [] []; cbv; tauto.
Qed.

Lemma ready_states_totally_ordered_witness :
  ready_lt NotAttached HaveMetadata = true.
Proof.
  apply (proj1 (proj2 (proj2 (proj2 (proj2 ready_states_totally_ordered))))
           NotAttached HaveNothing HaveMetadata); reflexivity.
Defined.

(** ** Fitting a frame to a region *)

(** C7. With the fill mode [Stretch], whatever the frame, the region and
    the sample aspect ratio, the destination rectangle is the region and
    the source rectangle is the whole frame, and no rational arithmetic
    is done.  The shape of the frame is not kept: a 1920 x 1080 frame
    with square samples is drawn on a 640 x 480 region as 640 x 480,
    where [MaintainRatio] draws it as 640 x 360. *)
Theorem stretch_fills_the_region :
  (forall frame bounds sample_aspect_ratio,
     Fit.FitVideoToRegion frame bounds sample_aspect_ratio Stretch
     = ([], Done (frame, bounds))) /\
  (forall frame bounds sample_aspect_ratio src dest,
     outcome (Fit.FitVideoToRegion frame bounds sample_aspect_ratio Stretch)
     = Done (src, dest) ->
     rect_eq dest bounds = true /\ rect_eq src frame = true) /\
  (let frame := mkRect 0 0 1920 1080 in
   let bounds := mkRect 0 0 640 480 in
   outcome (Fit.FitVideoToRegion frame bounds (mkRational 1 1) Stretch)
   = Done (frame, bounds) /\
   w bounds * h frame <> w frame * h bounds /\
   outcome (Fit.FitVideoToRegion frame bounds (mkRational 1 1) MaintainRatio)
   = Done (frame, mkRect 0 60 640 360)).
Proof.
  split; [reflexivity|]. split.
  - intros frame bounds sar src dest H. simpl in H.
    injection H as <- <-. unfold rect_eq.
    rewrite !N.eqb_refl. split; reflexivity.
  - repeat split. vm_compute. discriminate.
Qed.

Lemma stretch_fills_the_region_witness :
  rect_eq (mkRect 0 0 640 480) (mkRect 0 0 640 480) = true /\
  rect_eq (mkRect 0 0 1920 1080) (mkRect 0 0 1920 1080) = true.
Proof.
  apply (proj1 (proj2 stretch_fills_the_region)
           (mkRect 0 0 1920 1080) (mkRect 0 0 640 480) (mkRational 1 1)).
  reflexivity.
Defined.

(** The scenario of the specification with the other two modes: the
    frame keeps its 16:9 shape inside the region under [MaintainRatio],
    and loses its sides, evenly, under [Zoom]. *)
Example fit_1920x1080_into_640x480 :
  let frame := mkRect 0 0 1920 1080 in
  let bounds := mkRect 0 0 640 480 in
  outcome (Fit.FitVideoToRegion frame bounds (mkRational 1 1) MaintainRatio)
  = Done (frame, mkRect 0 60 640 360) /\
  outcome (Fit.FitVideoToRegion frame bounds (mkRational 1 1) Zoom)
  = Done (mkRect 240 0 1440 1080, bounds) /\
  outcome (Fit.FitVideoToRegion frame bounds (mkRational 0 0) MaintainRatio)
  = Done (frame, mkRect 0 60 640 360).
Proof. repeat split. Qed.

Example fit_empty_frame :
  outcome (Fit.FitVideoToRegion (mkRect 0 0 0 0) (mkRect 0 0 640 480)
             (mkRational 1 1) MaintainRatio)
  = Done (mkRect 0 0 0 0, mkRect 320 240 0 0).
Proof. reflexivity. Qed.

(** ** Multiplication *)

(** C2, as the specification states it, fails at [(2/1) * (2/1)]: the
    program never reduces the two numerators against each other, nor the
    two denominators, and returns [4/1]; reducing the pairs that the
    specification lists returns [1/1]. *)
Lemma multiplication_not_as_specified :
  operator_mul (T := uint32_t) (mkRational 2 1) (mkRational 2 1)
  = ([(2, 1); (2, 1); (2, 1); (2, 1)], Done (mkRational 4 1)) /\
  mul_as_specified (T := uint32_t) (mkRational 2 1) (mkRational 2 1)
  = ([(2, 2); (1, 1); (1, 1); (1, 1)], Done (mkRational 1 1)) /\
  operator_mul (T := uint32_t) (mkRational 2 1) (mkRational 2 1)
  <> mul_as_specified (T := uint32_t) (mkRational 2 1) (mkRational 2 1).
Proof.
  split; [reflexivity|]. split; [reflexivity|].
  vm_compute. discriminate.
Qed.

Section Multiplication.

Context {T : UnsignedT}.

(** C2, amended.  To multiply [a/b] by [c/d], none of the four zero, the
    program calls [reduce] four times, each time on a numerator and a
    denominator: on [(a, b)], on [(a, d)], on [(c, b)] and on [(c, d)],
    in this order and each on what the earlier calls left.  The residues
    [a'], [c'], [b'], [d'] are then coprime numerator against
    denominator, and the result is [(a' * c') / (b' * d')], equal as a
    fraction to [(a * c) / (b * d)], if both products fit in [T];
    otherwise an assertion fails.  On operands in lowest terms the first
    and third calls change nothing.  The reductions come before the
    multiplication: [(2^20 / 1) * (15625 / 2^20)] is [15625 / 1] although
    [2^20 * 15625] does not fit in 32 bits. *)
Theorem multiplication_reduces_then_multiplies
    (r other : Rational) (a' c' b' d' : N) :
  let a := numerator r in
  let b := denominator r in
  let c := numerator other in
  let d := denominator other in
  a <> 0 -> b <> 0 -> c <> 0 -> d <> 0 ->
  residues a c b d = (a', c', b', d') ->
  calls (operator_mul r other)
  = [(a, b);
     (fst (lowest a b), d);
     (c, snd (lowest a b));
     (fst (lowest c (snd (lowest a b))), snd (lowest (fst (lowest a b)) d))] /\
  (N.gcd a b = 1 -> N.gcd c d = 1 ->
   calls (operator_mul r other)
   = [(a, b); (a, d); (c, b); (c / N.gcd c b, d / N.gcd a d)] /\
   a' = a / N.gcd a d /\ c' = c / N.gcd c b /\
   b' = b / N.gcd c b /\ d' = d / N.gcd a d) /\
  (N.gcd a' b' = 1 /\ N.gcd a' d' = 1 /\ N.gcd c' b' = 1 /\ N.gcd c' d' = 1) /\
  outcome (operator_mul r other)
  = (if (a' * c' <=? T_max) && (b' * d' <=? T_max)
     then Done (mkRational (a' * c') (b' * d'))
     else Crash AssertionFailed) /\
  a' * c' * (b * d) = a * c * (b' * d').
Proof.
  intros a b c d Ha Hb Hc Hd Hres.
  unfold operator_mul. fold a b c d.
  rewrite (Rational4_nonzero _ _ _ _ _ _ _ _ Ha Hc Hb Hd Hres).
  destruct (residues_spec _ _ _ _ _ _ _ _ Ha Hc Hb Hd Hres)
    as (g1 & g2 & g3 & g4 & (E1 & E2 & E3 & E4) & _ & (C1 & C2 & C3 & C4)).
  unfold calls, outcome; simpl fst; simpl snd.
  split; [apply reductions_spec|].
  split; [|split; [tauto | split; [reflexivity|]]].
  - intros Hab Hcd. rewrite reductions_spec.
    revert Hres. unfold residues.
    rewrite (lowest_coprime a b Hab). simpl fst; simpl snd.
    unfold lowest at 1. unfold lowest at 1.
    assert (Hq : N.gcd (c / N.gcd c b) (d / N.gcd a d) = 1).
    { apply coprime_divide_l with (a := c).
      - apply coprime_divide_r with (b := d); [exact Hcd|].
        apply quotient_divides, N.gcd_divide_r.
      - apply quotient_divides, N.gcd_divide_l. }
    rewrite (lowest_coprime _ _ Hq).
    intros Heq. injection Heq as <- <- <- <-.
    unfold lowest; simpl. repeat split.
  - rewrite E1, E2, E3, E4. ring.
Qed.

End Multiplication.

Lemma multiplication_reduces_then_multiplies_witness :
  calls (operator_mul (T := uint32_t) (mkRational 1048576 1) (mkRational 15625 1048576))
  = [(1048576, 1); (1048576, 1048576); (15625, 1); (15625, 1)] /\
  outcome (operator_mul (T := uint32_t) (mkRational 1048576 1) (mkRational 15625 1048576))
  = Done (mkRational 15625 1) /\
  T_max (T := uint32_t) < 1048576 * 15625.
Proof.
  destruct (multiplication_reduces_then_multiplies (T := uint32_t)
              (mkRational 1048576 1) (mkRational 15625 1048576) 1 15625 1 1)
    as (H1 & _ & _ & H4 & _); try (simpl; discriminate); [reflexivity|].
  split; [exact H1|]. split; [exact H4 | reflexivity].
Defined.

(** ** Lowest terms are unique *)

Lemma lowest_terms_unique (p q p' q' : N) :
  p <> 0 -> p' <> 0 ->
  N.gcd p q = 1 -> N.gcd p' q' = 1 ->
  p * q' = p' * q ->
  p = p' /\ q = q'.
Proof.
  intros Hp Hp' Hpq Hpq' Heq.
  assert (Hdiv : (p | p')).
  { apply N.gauss with (m := q); [|exact Hpq].
    exists q'. rewrite (N.mul_comm q p'), <- Heq. apply N.mul_comm. }
  assert (Hdiv' : (p' | p)).
  { apply N.gauss with (m := q'); [|exact Hpq'].
    exists q. rewrite (N.mul_comm q' p), Heq. apply N.mul_comm. }
  assert (E : p = p') by (apply N.divide_antisym; assumption).
  subst p'. split; [reflexivity|].
  apply N.mul_cancel_l in Heq; [congruence | exact Hp].
Qed.

Section Value.

Context {T : UnsignedT}.

(** The constructor returns the fraction in lowest terms whenever that
    fraction fits in [T]. *)
Lemma Rational4_value (n1 n2 d1 d2 p q : N) :
  n1 <> 0 -> n2 <> 0 -> d1 <> 0 -> d2 <> 0 ->
  p <> 0 -> N.gcd p q = 1 -> in_T p -> in_T q ->
  p * (d1 * d2) = n1 * n2 * q ->
  outcome (Rational4 n1 n2 d1 d2) = Done (mkRational p q).
Proof.
  intros Hn1 Hn2 Hd1 Hd2 Hp Hpq Tp Tq Hv.
  destruct (residues n1 n2 d1 d2) as [[[a b] c] d] eqn:Hres.
  rewrite (Rational4_nonzero _ _ _ _ _ _ _ _ Hn1 Hn2 Hd1 Hd2 Hres).
  destruct (residues_spec _ _ _ _ _ _ _ _ Hn1 Hn2 Hd1 Hd2 Hres)
    as (g1 & g2 & g3 & g4 & (E1 & E2 & E3 & E4) &
        (Ha & Hb & Hc & Hd) & (C1 & C2 & C3 & C4)).
  pose proof (residues_coprime _ _ _ _ C1 C2 C3 C4) as Hco.
  assert (Hg : g1 * g2 * g3 * g4 <> 0).
  { intros H0. apply N.eq_mul_0 in H0. destruct H0 as [H0| ->].
    - apply N.eq_mul_0 in H0. destruct H0 as [H0| ->].
      + apply N.eq_mul_0 in H0. destruct H0 as [-> | ->].
        * rewrite N.mul_0_r in E1. contradiction.
        * rewrite N.mul_0_r, N.mul_0_l in E1. contradiction.
      + rewrite N.mul_0_r, N.mul_0_l in E2. contradiction.
    - rewrite N.mul_0_r, N.mul_0_l in E3. contradiction. }
  assert (Hx : a * b * q = p * (c * d)).
  { apply (N.mul_cancel_r _ _ (g1 * g2 * g3 * g4) Hg).
    transitivity (n1 * n2 * q); [rewrite E1, E3; ring|].
    rewrite <- Hv, E2, E4. ring. }
  assert (Hab : a * b <> 0).
  { intros H0. apply N.eq_mul_0 in H0. tauto. }
  destruct (lowest_terms_unique (a * b) (c * d) p q Hab Hp Hco Hpq Hx)
    as [Ep Eq].
  rewrite Ep, Eq. unfold in_T in Tp, Tq. unfold outcome; simpl.
  destruct (N.leb_spec p T_max); [|lia].
  destruct (N.leb_spec q T_max); [|lia].
  reflexivity.
Qed.

End Value.

(** ** The round trip *)

(** C5, as the specification states it, fails with [b] the canonical
    zero: [(1/1) * (0/0)] is [{0, 0}], the inverse of [{0, 0}] is
    [{0, 0}], nothing overflows, and the round trip returns [{0, 0}],
    which is not [1/1]. *)
Lemma round_trip_through_zero :
  canonical (mkRational 1 1) /\ canonical zero /\
  outcome (operator_mul (T := uint32_t) (mkRational 1 1) zero) = Done zero /\
  outcome (inverse (T := uint32_t) zero) = Done zero /\
  outcome (round_trip (T := uint32_t) (mkRational 1 1) zero) = Done zero /\
  operator_eq zero (mkRational 1 1) = false.
Proof.
  split; [right; repeat split; discriminate|].
  split; [left; reflexivity|].
  repeat split.
Qed.

Section RoundTrip.

Context {T : UnsignedT}.

(** C5, amended.  Let [a] be the canonical zero or a fraction in lowest
    terms, and [b] a fraction in lowest terms with neither field zero,
    all fields of type [T].  Whenever [a * b] returns, so when its
    overflow assertions hold, [b.inverse()] and the second product return
    too, and [(a * b) * b.inverse() == a]. *)
Theorem round_trip_restores (a b ab : Rational) :
  canonical a -> reduced b -> fields_in_T a -> fields_in_T b ->
  outcome (operator_mul a b) = Done ab ->
  outcome (inverse b) = Done (mkRational (denominator b) (numerator b)) /\
  exists r, outcome (round_trip a b) = Done r /\ r = a /\ operator_eq r a = true.
Proof.
  destruct a as [n1 d1], b as [n2 d2].
  intros Ca (Hn2 & Hd2 & Gb) [Tn1 Td1] [Tn2 Td2] Hab.
  simpl in *.
  assert (H1 : 1 <> 0) by discriminate.
  assert (Hinv : outcome (inverse (mkRational n2 d2)) = Done (mkRational d2 n2)).
  { unfold inverse, Rational2; simpl.
    apply Rational4_value; try assumption.
    - now rewrite N.gcd_comm.
    - ring. }
  split; [exact Hinv|].
  exists (mkRational n1 d1).
  split; [|split; [reflexivity | unfold operator_eq; simpl; now rewrite !N.eqb_refl]].
  unfold round_trip. rewrite outcome_bind, Hab, outcome_bind, Hinv.
  unfold operator_mul in *; simpl in *.
  destruct Ca as [Hz|(Hn1 & Hd1 & Ga)]; simpl in *.
  - injection Hz as -> ->. rewrite Rational4_zero in Hab by tauto.
    injection Hab as <-. reflexivity.
  - destruct (Rational4_cases n1 n2 d1 d2)
      as [(r & Hr & Cr & _ & Zr & Vr)|Hr]; rewrite Hr in Hab; [|discriminate].
    injection Hab as ->.
    destruct Cr as [->|(Hp & Hq & _)];
      [exfalso; destruct (proj1 Zr eq_refl) as [?|[?|[?|?]]]; contradiction|].
    apply Rational4_value; try assumption.
    transitivity (numerator ab * (d1 * d2)); [rewrite Vr|]; ring.
Qed.

End RoundTrip.

Lemma round_trip_restores_witness :
  exists r, outcome (round_trip (T := uint32_t) (mkRational 6 35) (mkRational 10 9))
            = Done r /\
            r = mkRational 6 35 /\ operator_eq r (mkRational 6 35) = true.
Proof.
  apply (round_trip_restores (T := uint32_t)
           (mkRational 6 35) (mkRational 10 9) (mkRational 4 21)).
  - right. repeat split; discriminate.
  - repeat split; discriminate.
  - split; unfold in_T; vm_compute; discriminate.
  - split; unfold in_T; vm_compute; discriminate.
  - reflexivity.
Defined.

(** ** Client lists *)

Section Sorted.

Context {A : Type}.

Lemma StronglySorted_weaken (R R' : A -> A -> Prop) (l : list A) :
  (forall a b, In a l -> In b l -> R a b -> R' a b) ->
  StronglySorted R l -> StronglySorted R' l.
Proof.
  intros HR Hs. induction Hs as [|a l Hs IH Hall]; constructor.
  - apply IH. intros x y Hx Hy. apply HR; now right.
  - rewrite Forall_forall in *. intros x Hx.
    apply HR; [now left | now right | now apply Hall].
Qed.

Lemma StronglySorted_snoc (R : A -> A -> Prop) (l : list A) (c : A) :
  StronglySorted R l -> Forall (fun a => R a c) l ->
  StronglySorted R (l ++ [c]).
Proof.
  intros Hs. induction Hs as [|a l Hs IH Hall]; intros Hc; simpl.
  - repeat constructor.
  - inversion Hc as [|? ? Hac Hlc]; subst. constructor.
    + now apply IH.
    + apply Forall_app. split; [exact Hall | now constructor].
Qed.

Lemma StronglySorted_filter (R : A -> A -> Prop) (f : A -> bool) (l : list A) :
  StronglySorted R l -> StronglySorted R (filter f l).
Proof.
  intros Hs. induction Hs as [|a l Hs IH Hall]; simpl; [constructor|].
  destruct (f a); [|exact IH]. constructor; [exact IH|].
  rewrite Forall_forall in *. intros x Hx.
  apply filter_In in Hx. now apply Hall.
Qed.

End Sorted.

Module ClientListFacts.

Import ClientList.

Lemma registered_In (impl : Impl) (c : Client) :
  registered impl c = true <-> In c impl.
Proof.
  unfold registered. rewrite existsb_exists. split.
  - intros (x & Hx & E). apply Nat.eqb_eq in E. now subst.
  - intros H. exists c. split; [exact H | apply Nat.eqb_refl].
Qed.

Lemma not_registered_In (impl : Impl) (c : Client) :
  registered impl c = false <-> ~ In c impl.
Proof.
  rewrite <- registered_In. destruct (registered impl c); split; intros H;
    congruence.
Qed.

Lemma RemoveClient_In (impl : Impl) (c x : Client) :
  In x (RemoveClient c impl) <-> In x impl /\ x <> c.
Proof.
  unfold RemoveClient. rewrite filter_In, Bool.negb_true_iff, Nat.eqb_neq.
  intuition congruence.
Qed.

Lemma RemoveClient_absent (impl : Impl) (c : Client) :
  ~ In c impl -> RemoveClient c impl = impl.
Proof.
  intros H. unfold RemoveClient. apply forallb_filter_id.
  apply forallb_forall. intros x Hx.
  rewrite Bool.negb_true_iff, Nat.eqb_neq. intros ->. contradiction.
Qed.

Lemma agrees_empty : agrees 0 nobody empty.
Proof.
  unfold agrees, nobody, empty, in_order_of. repeat split.
  - constructor.
  - intros [].
  - intros H. now contradiction H.
  - constructor.
  - discriminate.
Qed.

Lemma agrees_serve (i : nat) (r : request) (past : history) (impl : Impl) :
  agrees i past impl -> agrees (S i) (note i r past) (serve impl r).
Proof.
  intros (Hnd & Hin & Hord & Hlt). destruct r as [c|c]; simpl.
  - (* AddClient *)
    unfold AddClient. destruct (registered impl c) eqn:Hreg.
    + apply registered_In in Hreg.
      assert (Hsame : forall x, note i (Add c) past x = past x).
      { intros x. unfold note. destruct (Nat.eqb_spec c x) as [->|]; [|reflexivity].
        apply Hin in Hreg. destruct (past x); [reflexivity | contradiction]. }
      split; [exact Hnd|]. split; [|split].
      * intros x. rewrite Hsame. apply Hin.
      * eapply StronglySorted_weaken; [|exact Hord].
        intros a b _ _ (ta & tb & Ea & Eb & Hab).
        exists ta, tb. now rewrite !Hsame.
      * intros x t. rewrite Hsame. intros H. apply Hlt in H. lia.
    + apply not_registered_In in Hreg.
      assert (Hc : past c = None).
      { destruct (past c) eqn:E; [|reflexivity].
        exfalso. apply Hreg, Hin. congruence. }
      assert (Hnew : note i (Add c) past c = Some i).
      { unfold note. now rewrite Nat.eqb_refl, Hc. }
      assert (Hold : forall x, x <> c -> note i (Add c) past x = past x).
      { intros x Hx. unfold note.
        destruct (Nat.eqb_spec c x); [congruence | reflexivity]. }
      split; [|split; [|split]].
      * apply NoDup_app. repeat split; try assumption.
        -- constructor; [intros [] | constructor].
        -- intros x Hx [<-|[]]. contradiction.
      * intros x. split; intros Hx.
        -- apply in_app_or in Hx. destruct Hx as [Hx|[<-|[]]].
           ++ rewrite Hold by (intros ->; contradiction). now apply Hin.
           ++ rewrite Hnew. discriminate.
        -- apply in_or_app.
           destruct (Nat.eq_dec x c) as [->|Hne]; [right; now left | left].
           rewrite Hold in Hx by exact Hne. now apply Hin.
      * apply (StronglySorted_snoc (earlier (note i (Add c) past))).
        -- eapply StronglySorted_weaken; [|exact Hord].
           intros a b Ha Hb (ta & tb & Ea & Eb & Hab).
           exists ta, tb.
           rewrite !Hold by (intros ->; contradiction). tauto.
        -- apply Forall_forall. intros x Hx.
           assert (Hne : x <> c) by (intros ->; contradiction).
           destruct (past x) as [t|] eqn:Et; [|now apply Hin in Hx].
           exists t, i. rewrite (Hold x Hne), Hnew.
           repeat split; [exact Et | now apply Hlt in Et].
      * intros x t. destruct (Nat.eq_dec x c) as [->|Hne].
        -- rewrite Hnew. intros [= <-]. lia.
        -- rewrite (Hold x Hne). intros H. apply Hlt in H. lia.
  - (* RemoveClient *)
    assert (Hgone : note i (Remove c) past c = None).
    { unfold note. now rewrite Nat.eqb_refl. }
    assert (Hold : forall x, x <> c -> note i (Remove c) past x = past x).
    { intros x Hx. unfold note.
      destruct (Nat.eqb_spec c x); [congruence | reflexivity]. }
    split; [|split; [|split]].
    + now apply NoDup_filter.
    + intros x. split; intros Hx.
      * apply RemoveClient_In in Hx. destruct Hx as [Hx Hne].
        rewrite (Hold x Hne). now apply Hin.
      * apply RemoveClient_In.
        destruct (Nat.eq_dec x c) as [->|Hne]; [now rewrite Hgone in Hx|].
        rewrite (Hold x Hne) in Hx. split; [now apply Hin | exact Hne].
    + eapply StronglySorted_weaken;
        [|apply StronglySorted_filter; exact Hord].
      intros a b Ha Hb (ta & tb & Ea & Eb & Hab).
      apply RemoveClient_In in Ha, Hb.
      exists ta, tb. rewrite !Hold by tauto. tauto.
    + intros x t. destruct (Nat.eq_dec x c) as [->|Hne].
      * rewrite Hgone. discriminate.
      * rewrite (Hold x Hne). intros H. apply Hlt in H. lia.
Qed.

Lemma agrees_run (rs : list request) :
  forall i past impl,
    agrees i past impl ->
    agrees (i + length rs) (since i rs past) (run rs impl).
Proof.
  induction rs as [|r rs IH]; intros i past impl H; simpl.
  - now rewrite Nat.add_0_r.
  - rewrite Nat.add_succ_r. apply (IH (S i)). now apply agrees_serve.
Qed.

End ClientListFacts.

Section Delivery.

Import ClientList ClientListFacts.

Context {MediaTrack TextTrack double string user_data : Type}.

Lemma received_Fire
    (ev : @ClientList.Event MediaTrack TextTrack double string user_data) (impl : Impl) (c : Client) :
  received c (Fire ev impl) = length (filter (Nat.eqb c) impl).
Proof.
  unfold received, Fire. induction impl as [|a l IH]; simpl; [reflexivity|].
  destruct (Nat.eqb c a); simpl; now rewrite IH.
Qed.

Lemma NoDup_filter_eqb (impl : Impl) (c : Client) :
  NoDup impl ->
  length (filter (Nat.eqb c) impl) = if registered impl c then 1%nat else 0%nat.
Proof.
  intros Hnd. induction Hnd as [|a l Ha Hnd IH]; simpl; [reflexivity|].
  destruct (Nat.eqb_spec c a) as [->|Hne]; simpl; [|exact IH].
  apply not_registered_In in Ha. rewrite Ha in IH. now rewrite IH.
Qed.

(** C8. After any sequence of [AddClient] and [RemoveClient] calls on an
    empty list, the list holds no client twice; it holds exactly the
    clients added and not removed since; and each of them registered
    before all those behind it.  Adding a registered client changes
    nothing, adding another one puts it last, and either way the client
    is then listed once; removing an unregistered client changes nothing,
    and a removed client is no longer listed.  Firing an event calls the
    clients in the order of the list, with that event, each registered
    client once and no other client. *)
Theorem client_list_delivers_once_in_order (rs : list request) :
  let impl := run rs empty in
  let past := since 0 rs nobody in
  NoDup impl /\
  (forall c, registered impl c = true <-> past c <> None) /\
  in_order_of past impl /\
  (forall c, registered impl c = true -> AddClient c impl = impl) /\
  (forall c, registered impl c = false -> AddClient c impl = impl ++ [c]) /\
  (forall c, count_occ Nat.eq_dec (AddClient c impl) c = 1%nat) /\
  (forall c, registered impl c = false -> RemoveClient c impl = impl) /\
  (forall c, registered (RemoveClient c impl) c = false) /\
  (forall ev : @ClientList.Event MediaTrack TextTrack double string user_data,
     map fst (Fire ev impl) = impl /\
     Forall (fun d => snd d = ev) (Fire ev impl) /\
     forall c, received c (Fire ev impl)
               = if registered impl c then 1%nat else 0%nat).
Proof.
  intros impl past.
  destruct (agrees_run rs 0 nobody empty agrees_empty)
    as (Hnd & Hin & Hord & _).
  fold impl past in Hnd, Hin, Hord. clearbody impl past.
  split; [exact Hnd|].
  split; [intros c; rewrite registered_In; apply Hin|].
  split; [exact Hord|].
  split; [intros c H; unfold AddClient; now rewrite H|].
  split; [intros c H; unfold AddClient; now rewrite H|].
  split; [|split; [|split]].
  - intros c. unfold AddClient. destruct (registered impl c) eqn:Hreg.
    + apply registered_In in Hreg.
      now apply (proj1 (NoDup_count_occ' Nat.eq_dec impl) Hnd).
    + apply not_registered_In in Hreg.
      unfold Impl, Client in *.
      rewrite count_occ_app.
      rewrite (proj1 (count_occ_not_In Nat.eq_dec impl c) Hreg).
      simpl. destruct (Nat.eq_dec c c); [reflexivity | contradiction].
  - intros c H. apply RemoveClient_absent. now apply not_registered_In.
  - intros c. apply not_registered_In. rewrite RemoveClient_In. tauto.
  - intros ev. split; [|split].
    + unfold Fire. rewrite map_map. simpl. apply map_id.
    + unfold Fire. apply Forall_forall. intros d Hd.
      apply in_map_iff in Hd. destruct Hd as (c & <- & _). reflexivity.
    + intros c. rewrite received_Fire. now apply NoDup_filter_eqb.
Qed.

(** The scenario of the specification: A, B, C register in this order
    and [OnPlay] reaches A, then B, then C; with B removed it reaches A,
    then C; adding A again leaves A registered once, still first. *)
Example clients_A_B_C :
  let A := 1%nat in
  let B := 2%nat in
  let C := 3%nat in
  let OnPlay : @ClientList.Event MediaTrack TextTrack double string user_data :=
    ClientList.OnPlay in
  Fire OnPlay (run [Add A; Add B; Add C] empty)
  = [(A, OnPlay); (B, OnPlay); (C, OnPlay)] /\
  Fire OnPlay (run [Add A; Add B; Add C; Remove B] empty)
  = [(A, OnPlay); (C, OnPlay)] /\
  run [Add A; Add B; Add C; Remove B; Add A] empty = [A; C].
Proof. repeat split. Qed.

End Delivery.

Lemma client_list_delivers_once_in_order_witness :
  ClientList.AddClient 1%nat
    (ClientList.run [ClientList.Add 1%nat; ClientList.Add 2%nat] ClientList.empty)
  = ClientList.run [ClientList.Add 1%nat; ClientList.Add 2%nat] ClientList.empty /\
  ClientList.RemoveClient 3%nat
    (ClientList.run [ClientList.Add 1%nat; ClientList.Add 2%nat] ClientList.empty)
  = ClientList.run [ClientList.Add 1%nat; ClientList.Add 2%nat] ClientList.empty.
Proof.
  destruct (client_list_delivers_once_in_order
              (MediaTrack := unit) (TextTrack := unit) (double := unit)
              (string := unit) (user_data := unit)
              [ClientList.Add 1%nat; ClientList.Add 2%nat])
    as (_ & _ & _ & Hadd & _ & _ & Hrem & _).
  split; [apply Hadd | apply Hrem]; reflexivity.
Defined.

(** * Further properties *)

(** ** Escaping a key system *)

Section Escaping.

Import StdString.

Lemma option_map_S_add (n : nat) (o : option nat) :
  option_map S (option_map (Nat.add n) o) = option_map (Nat.add (S n)) o.
Proof. destruct o; reflexivity. Qed.

Lemma find_skip (done rest : list ascii) (ch : ascii) :
  find (done ++ rest) ch (length done)
  = option_map (Nat.add (length done)) (find rest ch 0).
Proof.
  induction done as [|c done IH]; simpl.
  - destruct (find rest ch 0); reflexivity.
  - rewrite IH. apply option_map_S_add.
Qed.

Lemma find_none (rest : list ascii) :
  find rest dot 0 = None -> escaped rest = rest /\ ~ In dot rest.
Proof.
  induction rest as [|c rest IH]; simpl; [tauto|].
  destruct (Ascii.eqb_spec c dot) as [->|Hne]; [discriminate|].
  destruct (find rest dot 0); [discriminate|]. intros _.
  destruct (IH eq_refl) as [IH1 IH2]. split; [now rewrite IH1|].
  intros [H|H]; [congruence | contradiction].
Qed.

Lemma find_some (rest : list ascii) :
  forall i, find rest dot 0 = Some i ->
  exists pre post, rest = pre ++ dot :: post /\ length pre = i /\
                   escaped pre = pre.
Proof.
  induction rest as [|c rest IH]; simpl; intros i Hi; [discriminate|].
  destruct (Ascii.eqb_spec c dot) as [->|Hne].
  - injection Hi as <-. exists [], rest. repeat split.
  - destruct (find rest dot 0) as [j|]; [|discriminate].
    injection Hi as <-. destruct (IH j eq_refl) as (pre & post & -> & <- & Hpre).
    exists (c :: pre), post. simpl. repeat split.
    destruct (Ascii.eqb_spec c dot); [contradiction | now rewrite Hpre].
Qed.

Lemma escaped_app (s t : list ascii) :
  escaped (s ++ t) = escaped s ++ escaped t.
Proof.
  induction s as [|c s IH]; simpl; [reflexivity|].
  destruct (Ascii.eqb c dot); simpl; now rewrite IH.
Qed.

Lemma insert_between (front back str : list ascii) :
  insert (front ++ back) (length front) str = Some (front ++ str ++ back).
Proof.
  unfold insert. rewrite length_app.
  destruct (Nat.leb_spec (length front) (length front + length back)); [|lia].
  rewrite <- (Nat.add_0_r (length front)) at 1 2.
  rewrite firstn_app_2, skipn_app, Nat.add_0_r, skipn_all, Nat.sub_diag.
  simpl. now rewrite app_nil_r.
Qed.

Lemma escape_loop_spec (fuel : nat) :
  forall done rest, (length rest < fuel)%nat ->
  escape_loop fuel (done ++ rest) (length done) = Returned (done ++ escaped rest).
Proof.
  induction fuel as [|fuel IH]; intros done rest Hfuel; [lia|].
  simpl. rewrite find_skip.
  destruct (find rest dot 0) as [i|] eqn:Hfind; simpl.
  - destruct (find_some rest i Hfind) as (pre & post & -> & <- & Hpre).
    rewrite <- length_app, app_assoc, insert_between.
    replace (length (done ++ pre) + 2)%nat
      with (length ((done ++ pre) ++ [backslash; dot]))
      by (rewrite !length_app; simpl; lia).
    replace ((done ++ pre) ++ [backslash] ++ dot :: post)
      with (((done ++ pre) ++ [backslash; dot]) ++ post)
      by (rewrite <- !app_assoc; reflexivity).
    rewrite IH by (rewrite length_app in Hfuel; simpl in Hfuel; lia).
    rewrite escaped_app, Hpre. simpl.
    rewrite <- !app_assoc. reflexivity.
  - destruct (find_none rest Hfind) as [-> _]. reflexivity.
Qed.

Lemma EscapeKeySystem_spec (key_system : list ascii) :
  EscapeKeySystem key_system = Returned (escaped key_system).
Proof.
  unfold EscapeKeySystem.
  apply (escape_loop_spec (S (length key_system)) [] key_system). lia.
Qed.

End Escaping.

Section EscapedFacts.

Lemma escaped_length (s : list ascii) :
  length (escaped s) = (length s + count_occ ascii_dec s dot)%nat.
Proof.
  induction s as [|c s IH]; simpl; [reflexivity|].
  destruct (Ascii.eqb_spec c dot) as [->|Hne]; simpl.
  - destruct (ascii_dec dot dot); [|contradiction]. rewrite IH. lia.
  - destruct (ascii_dec c dot); [contradiction|]. now rewrite IH.
Qed.

Lemma escaped_dots (s : list ascii) :
  count_occ ascii_dec (escaped s) dot = count_occ ascii_dec s dot.
Proof.
  induction s as [|c s IH]; simpl; [reflexivity|].
  destruct (Ascii.eqb_spec c dot) as [->|Hne]; simpl.
  - destruct (ascii_dec backslash dot); [discriminate|].
    destruct (ascii_dec dot dot); [|contradiction]. now rewrite IH.
  - destruct (ascii_dec c dot); [contradiction | exact IH].
Qed.

Lemma escaped_no_dot (s : list ascii) : ~ In dot s -> escaped s = s.
Proof.
  induction s as [|c s IH]; simpl; intros H; [reflexivity|].
  destruct (Ascii.eqb_spec c dot) as [->|Hne]; [tauto|].
  rewrite IH; tauto.
Qed.

Lemma escaped_dot_preceded (s : list ascii) :
  forall i, nth_error (escaped s) i = Some dot ->
  exists j, i = S j /\ nth_error (escaped s) j = Some backslash.
Proof.
  induction s as [|c s IH]; intros i Hi; simpl in *.
  - destruct i; discriminate.
  - destruct (Ascii.eqb_spec c dot) as [->|Hne].
    + destruct i as [|[|k]]; simpl in Hi.
      * discriminate.
      * exists O. split; reflexivity.
      * destruct (IH k Hi) as (j & -> & Hj).
        exists (S (S j)). split; [reflexivity | exact Hj].
    + destruct i as [|k]; simpl in Hi.
      * congruence.
      * destruct (IH k Hi) as (j & -> & Hj).
        exists (S j). split; [reflexivity | exact Hj].
Qed.

Lemma escaped_head (s : list ascii) : hd_error (escaped s) <> Some dot.
Proof.
  destruct s as [|c s]; simpl; [discriminate|].
  destruct (Ascii.eqb_spec c dot) as [->|Hne]; simpl.
  - discriminate.
  - intros [= H]. contradiction.
Qed.

Lemma unescaped_cons (c : ascii) (s : list ascii) :
  ~ (c = backslash /\ hd_error s = Some dot) ->
  unescaped (c :: s) = c :: unescaped s.
Proof.
  intros H. destruct s as [|d s]; [reflexivity|].
  change (unescaped (c :: d :: s))
    with (if Ascii.eqb c backslash && Ascii.eqb d dot then unescaped (d :: s)
          else c :: unescaped (d :: s)).
  destruct (Ascii.eqb_spec c backslash) as [->|]; [|reflexivity].
  destruct (Ascii.eqb_spec d dot) as [->|]; [|reflexivity].
  exfalso. apply H. split; reflexivity.
Qed.

Lemma unescaped_escaped (s : list ascii) : unescaped (escaped s) = s.
Proof.
  induction s as [|c s IH]; simpl; [reflexivity|].
  destruct (Ascii.eqb_spec c dot) as [->|Hne].
  - change (unescaped (backslash :: dot :: escaped s))
      with (unescaped (dot :: escaped s)).
    rewrite unescaped_cons by (intros [H _]; discriminate).
    now rewrite IH.
  - rewrite unescaped_cons; [now rewrite IH|].
    intros [_ H]. now apply (escaped_head s).
Qed.

End EscapedFacts.

(** X1. [EscapeKeySystem] always returns: the loop ends and [insert] is
    never out of range.  The result is the key system with one backslash
    put before each dot and nothing else changed, so it is longer by the
    number of dots, has the same dots, and is the key system itself when
    that has no dot. *)
Theorem escape_key_system_returns (key_system : list ascii) :
  exists out,
    EscapeKeySystem key_system = Returned out /\
    out = escaped key_system /\
    length out = (length key_system + count_occ ascii_dec key_system dot)%nat /\
    count_occ ascii_dec out dot = count_occ ascii_dec key_system dot /\
    (~ In dot key_system -> out = key_system).
Proof.
  exists (escaped key_system). split; [apply EscapeKeySystem_spec|].
  split; [reflexivity|]. split; [apply escaped_length|].
  split; [apply escaped_dots | apply escaped_no_dot].
Qed.

Lemma escape_key_system_returns_witness :
  exists out,
    EscapeKeySystem ["a"; "b"]%char = Returned out /\
    out = ["a"; "b"]%char.
Proof.
  destruct (escape_key_system_returns ["a"; "b"]%char)
    as (out & Hout & _ & _ & _ & Hsame).
  exists out. split; [exact Hout|]. apply Hsame.
  intros [H|[H|[]]]; discriminate.
Defined.

(** X2. In the result of [EscapeKeySystem] no dot comes first and every
    dot has a backslash right before it. *)
Theorem escape_key_system_guards_every_dot
    (key_system out : list ascii) (i : nat) :
  EscapeKeySystem key_system = Returned out ->
  nth_error out i = Some dot ->
  exists j, i = S j /\ nth_error out j = Some backslash.
Proof.
  rewrite EscapeKeySystem_spec. intros [= <-]. apply escaped_dot_preceded.
Qed.

Lemma escape_key_system_guards_every_dot_witness :
  exists j, 4%nat = S j /\
            nth_error ["c"; "o"; "m"; "\"; "."; "w"]%char j = Some backslash.
Proof.
  apply (escape_key_system_guards_every_dot
           ["c"; "o"; "m"; "."; "w"]%char
           ["c"; "o"; "m"; "\"; "."; "w"]%char 4); reflexivity.
Defined.

(** X3. Dropping the backslash before each dot of the result of
    [EscapeKeySystem] gives the key system back, whatever characters it
    holds; so two key systems with the same escaped form are equal. *)
Theorem escape_key_system_round_trip (key_system out : list ascii) :
  EscapeKeySystem key_system = Returned out ->
  unescaped out = key_system /\
  (forall other, EscapeKeySystem other = Returned out -> other = key_system).
Proof.
  rewrite EscapeKeySystem_spec. intros [= <-].
  split; [apply unescaped_escaped|].
  intros other. rewrite EscapeKeySystem_spec. intros [= H].
  rewrite <- (unescaped_escaped other), H. apply unescaped_escaped.
Qed.

Lemma escape_key_system_round_trip_witness :
  unescaped ["\"; "."; "\"; "\"; "."]%char = ["."; "\"; "."]%char.
Proof.
  apply (proj1 (escape_key_system_round_trip
                  ["."; "\"; "."]%char ["\"; "."; "\"; "\"; "."]%char eq_refl)).
Defined.

(** ** Configuration keys *)

(** X4. [LicenseServerConfig] always returns ["drm.servers."] followed
    by the escaped key system.  The only dots of the result without a
    backslash before them are the two of the prefix, at 3 and 11, and two
    key systems with the same configuration key are equal. *)
Theorem license_server_config_key (key_system : list ascii) :
  exists out,
    LicenseServerConfig key_system = Returned out /\
    out = drm_servers ++ escaped key_system /\
    (forall i, nth_error out i = Some dot ->
       i = 3%nat \/ i = 11%nat \/
       ((12 < i)%nat /\ nth_error out (i - 1) = Some backslash)) /\
    (forall other, LicenseServerConfig other = Returned out ->
       other = key_system).
Proof.
  exists (drm_servers ++ escaped key_system).
  unfold LicenseServerConfig. rewrite EscapeKeySystem_spec.
  split; [reflexivity|]. split; [reflexivity|]. split.
  - intros i Hi.
    destruct (Nat.lt_ge_cases i 12) as [Hlt|Hge].
    + do 12 (destruct i as [|i];
             [simpl in Hi; try discriminate Hi; auto|]).
      lia.
    + rewrite nth_error_app2 in Hi by exact Hge.
      destruct (escaped_dot_preceded _ _ Hi) as (j & Hj & Hb).
      right; right. change (length drm_servers) with 12%nat in *.
      split; [lia|].
      rewrite nth_error_app2 by (change (length drm_servers) with 12%nat; lia).
      change (length drm_servers) with 12%nat.
      replace (i - 1 - 12)%nat with j by lia. exact Hb.
  - intros other. rewrite EscapeKeySystem_spec. intros [= H].
    rewrite <- (unescaped_escaped other), H. apply unescaped_escaped.
Qed.

Lemma license_server_config_key_witness :
  exists out,
    LicenseServerConfig ["a"; "."; "b"]%char = Returned out /\
    (14%nat = 3%nat \/ 14%nat = 11%nat \/
     ((12 < 14)%nat /\ nth_error out (14 - 1) = Some backslash)).
Proof.
  destruct (license_server_config_key ["a"; "."; "b"]%char)
    as (out & Hout & Heq & Hdots & _).
  exists out. split; [exact Hout|]. apply Hdots.
  rewrite Heq. reflexivity.
Defined.

Lemma advanced_tail_injective (k1 : list ascii) :
  forall k2 p1 p2,
    ~ In backslash k2 ->
    escaped k1 ++ [dot] ++ p1 = escaped k2 ++ [dot] ++ p2 ->
    ~ In backslash k1 ->
    k1 = k2 /\ p1 = p2.
Proof.
  induction k1 as [|c1 k1 IH]; intros k2 p1 p2 Hb2 Heq Hb1.
  - destruct k2 as [|c2 k2]; simpl in Heq.
    + injection Heq as ->. split; reflexivity.
    + exfalso. destruct (Ascii.eqb_spec c2 dot) as [->|Hne]; simpl in Heq.
      * discriminate Heq.
      * injection Heq as Hc _. congruence.
  - destruct k2 as [|c2 k2]; simpl in Heq.
    + exfalso. destruct (Ascii.eqb_spec c1 dot) as [->|Hne]; simpl in Heq.
      * discriminate Heq.
      * injection Heq as Hc _. congruence.
    + destruct (Ascii.eqb_spec c1 dot) as [->|Hne1];
        destruct (Ascii.eqb_spec c2 dot) as [->|Hne2]; simpl in Heq.
      * injection Heq as Heq.
        destruct (IH k2 p1 p2) as [-> ->];
          [intros H; apply Hb2; now right | exact Heq
          | intros H; apply Hb1; now right |].
        split; reflexivity.
      * exfalso. injection Heq as Hc _. apply Hb2. left. congruence.
      * exfalso. injection Heq as Hc _. apply Hb1. left. congruence.
      * injection Heq as -> Heq.
        destruct (IH k2 p1 p2) as [-> ->];
          [intros H; apply Hb2; now right | exact Heq
          | intros H; apply Hb1; now right |].
        split; reflexivity.
Qed.

(** X5. [AdvancedDrmConfig] always returns ["drm.advanced."], the
    escaped key system, a dot and the property.  When the key systems hold
    no backslash, the same configuration key comes only from the same key
    system and the same property. *)
Theorem advanced_drm_config_key
    (key_system property other_system other_property out : list ascii) :
  ~ In backslash key_system -> ~ In backslash other_system ->
  AdvancedDrmConfig key_system property = Returned out ->
  AdvancedDrmConfig other_system other_property = Returned out ->
  out = drm_advanced ++ escaped key_system ++ [dot] ++ property /\
  key_system = other_system /\ property = other_property.
Proof.
  unfold AdvancedDrmConfig. rewrite !EscapeKeySystem_spec.
  intros Hb1 Hb2 [= <-] [= H]. split; [reflexivity|].
  symmetry in H.
  now apply (advanced_tail_injective key_system other_system).
Qed.

Lemma advanced_drm_config_key_witness :
  ["a"; "."; "b"]%char = ["a"; "."; "b"]%char /\ ["c"]%char = ["c"]%char.
Proof.
  apply (advanced_drm_config_key
           ["a"; "."; "b"]%char ["c"]%char ["a"; "."; "b"]%char ["c"]%char
           (drm_advanced ++ ["a"; "\"; "."; "b"; "."; "c"]%char)).
  - intros [H|[H|[H|[]]]]; discriminate.
  - intros [H|[H|[H|[]]]]; discriminate.
  - reflexivity.
  - reflexivity.
Defined.

(** X6. [EscapeKeySystem] leaves backslashes as they are, so a key
    system that ends in a backslash takes the separating dot of
    [AdvancedDrmConfig] for an escaped one: with [tail] free of dots, the
    key system [head\] with the property [tail.rest] and the key system
    [head.tail] with the property [rest] get the same key. *)
Theorem advanced_drm_config_trailing_backslash
    (head tail rest : list ascii) :
  ~ In dot tail ->
  AdvancedDrmConfig (head ++ [backslash]) (tail ++ dot :: rest)
  = AdvancedDrmConfig (head ++ dot :: tail) rest /\
  (head ++ [backslash], tail ++ dot :: rest) <> (head ++ dot :: tail, rest).
Proof.
  intros Htail. split.
  - unfold AdvancedDrmConfig. rewrite !EscapeKeySystem_spec.
    rewrite !escaped_app. simpl. rewrite (escaped_no_dot tail Htail).
    rewrite <- !app_assoc. reflexivity.
  - intros [= H1 H2]. apply (f_equal (@length ascii)) in H2.
    rewrite length_app in H2. simpl in H2. lia.
Qed.

Lemma advanced_drm_config_trailing_backslash_witness :
  AdvancedDrmConfig ["a"; "\"]%char ["b"; "."; "c"]%char
  = AdvancedDrmConfig ["a"; "."; "b"]%char ["c"]%char.
Proof.
  apply (advanced_drm_config_trailing_backslash ["a"]%char ["b"]%char ["c"]%char).
  intros [H|[]]. discriminate.
Defined.

(** ** More on [gcd] and [reduce] *)

(** X7. [gcd] returns on every pair of arguments, without calling
    [reduce], and what it returns divides both arguments and is divided
    by every number that divides both; [gcd(a, 0)] is [a] and [gcd(0, b)]
    is [b], so [gcd(0, 0)] is [0]. *)
Theorem gcd_returns_greatest_common_divisor (a b : N) :
  exists g,
    gcd a b = ([], Done g) /\
    (g | a) /\ (g | b) /\
    (forall k, (k | a) -> (k | b) -> (k | g)) /\
    (b = 0 -> g = a) /\ (a = 0 -> g = b).
Proof.
  exists (N.gcd a b). split; [apply gcd_spec|].
  split; [apply N.gcd_divide_l|]. split; [apply N.gcd_divide_r|].
  split; [intros k; apply N.gcd_greatest|].
  split; intros ->; [apply N.gcd_0_r | apply N.gcd_0_l].
Qed.

Lemma gcd_returns_greatest_common_divisor_witness :
  exists g, gcd 1920 1080 = ([], Done g) /\ (120 | g).
Proof.
  destruct (gcd_returns_greatest_common_divisor 1920 1080)
    as (g & Hg & _ & _ & Hmax & _).
  exists g. split; [exact Hg|]. apply Hmax.
  - exists 16. reflexivity.
  - exists 9. reflexivity.
Defined.

Section Reduce.

Context {T : UnsignedT}.

Lemma reduce_general (n d : N) :
  N.gcd n d <> 0 -> reduce n d = ([(n, d)], Done (lowest n d)).
Proof.
  intros Hg. unfold reduce, tick.
  rewrite bind_done, gcd_spec, bind_ret.
  rewrite !divide_nonzero, !bind_ret by exact Hg.
  reflexivity.
Qed.

(** X8. On two numbers not both zero, [reduce] leaves two coprime
    numbers that stand for the same fraction, each a divisor of the one
    it replaces.  On two zeros it divides by zero. *)
Theorem reduce_to_lowest_terms (num den : N) :
  (num <> 0 \/ den <> 0 ->
   exists num' den',
     outcome (reduce num den) = Done (num', den') /\
     N.gcd num' den' = 1 /\
     num' * den = num * den' /\
     (num' | num) /\ (den' | den)) /\
  (num = 0 -> den = 0 -> outcome (reduce num den) = Crash DivisionByZero).
Proof.
  split.
  - intros Hnz.
    assert (Hg : N.gcd num den <> 0).
    { intros H0. apply N.gcd_eq_0 in H0. lia. }
    exists (num / N.gcd num den), (den / N.gcd num den).
    rewrite (reduce_general _ _ Hg).
    split; [reflexivity|].
    split; [apply N.gcd_div_gcd; [exact Hg | reflexivity]|].
    split; [|split; apply quotient_divides;
               [apply N.gcd_divide_l | apply N.gcd_divide_r]].
    destruct (N.gcd_divide_l num den) as [k Hk].
    destruct (N.gcd_divide_r num den) as [l Hl].
    assert (En : num / N.gcd num den = k).
    { rewrite Hk at 1. now apply N.div_mul. }
    assert (Ed : den / N.gcd num den = l).
    { rewrite Hl at 1. now apply N.div_mul. }
    rewrite En, Ed. clear En Ed.
    set (g := N.gcd num den) in *. clearbody g. subst num den. ring.
  - intros -> ->. reflexivity.
Qed.

End Reduce.

Lemma reduce_to_lowest_terms_witness :
  (exists num' den',
     outcome (reduce 0 7) = Done (num', den') /\
     N.gcd num' den' = 1 /\
     num' * 7 = 0 * den' /\
     (num' | 0) /\ (den' | 7)) /\
  outcome (reduce 0 0) = Crash DivisionByZero.
Proof.
  split.
  - apply (proj1 (reduce_to_lowest_terms 0 7)). right. discriminate.
  - apply (proj2 (reduce_to_lowest_terms 0 0)); reflexivity.
Defined.

(** ** The operators as operations on fractions *)

Section Fractions.

Context {T : UnsignedT}.

Lemma canonical_fields (r : Rational) :
  canonical r ->
  (numerator r = 0 <-> r = zero) /\ (denominator r = 0 <-> r = zero).
Proof.
  intros [->|(Hn & Hd & _)].
  - split; split; reflexivity.
  - split; split; intros H; try contradiction; rewrite H in *; simpl in *;
      contradiction.
Qed.

(** What the private constructor returns for one fraction, it returns
    for every other way of writing that fraction. *)
Lemma Rational4_transfer (n1 n2 d1 d2 m1 m2 e1 e2 : N) (r : Rational) :
  n1 <> 0 -> n2 <> 0 -> d1 <> 0 -> d2 <> 0 ->
  m1 <> 0 -> m2 <> 0 -> e1 <> 0 -> e2 <> 0 ->
  n1 * n2 * (e1 * e2) = m1 * m2 * (d1 * d2) ->
  outcome (Rational4 n1 n2 d1 d2) = Done r ->
  outcome (Rational4 m1 m2 e1 e2) = Done r.
Proof.
  intros Hn1 Hn2 Hd1 Hd2 Hm1 Hm2 He1 He2 Heq Hr.
  destruct (Rational4_cases n1 n2 d1 d2)
    as [(r' & Hr' & Cr & [Tn Td] & Zr & Vr)|Hc]; [|congruence].
  assert (r' = r) by congruence. subst r'.
  destruct Cr as [->|(Hp & Hq & Hg)];
    [exfalso; destruct (proj1 Zr eq_refl) as [?|[?|[?|?]]]; contradiction|].
  destruct r as [p q]. simpl in *.
  apply Rational4_value; try assumption.
  assert (Hd : d1 * d2 <> 0) by (intros H0; apply N.eq_mul_0 in H0; tauto).
  apply (N.mul_cancel_r _ _ (d1 * d2) Hd).
  transitivity (p * (d1 * d2) * (e1 * e2)); [ring|].
  rewrite Vr.
  transitivity (q * (n1 * n2 * (e1 * e2))); [ring|].
  rewrite Heq. ring.
Qed.

Lemma Rational4_same_fraction (n1 n2 d1 d2 m1 m2 e1 e2 : N) :
  ((n1 = 0 \/ n2 = 0 \/ d1 = 0 \/ d2 = 0) <->
   (m1 = 0 \/ m2 = 0 \/ e1 = 0 \/ e2 = 0)) ->
  (n1 <> 0 -> n2 <> 0 -> d1 <> 0 -> d2 <> 0 ->
   n1 * n2 * (e1 * e2) = m1 * m2 * (d1 * d2)) ->
  outcome (Rational4 n1 n2 d1 d2) = outcome (Rational4 m1 m2 e1 e2).
Proof.
  intros Hz Heq.
  destruct (N.eq_dec n1 0) as [?|Hn1];
    [rewrite !Rational4_zero by tauto; reflexivity|].
  destruct (N.eq_dec n2 0) as [?|Hn2];
    [rewrite !Rational4_zero by tauto; reflexivity|].
  destruct (N.eq_dec d1 0) as [?|Hd1];
    [rewrite !Rational4_zero by tauto; reflexivity|].
  destruct (N.eq_dec d2 0) as [?|Hd2];
    [rewrite !Rational4_zero by tauto; reflexivity|].
  assert (Hm : m1 <> 0 /\ m2 <> 0 /\ e1 <> 0 /\ e2 <> 0) by tauto.
  destruct Hm as (Hm1 & Hm2 & He1 & He2).
  specialize (Heq Hn1 Hn2 Hd1 Hd2).
  destruct (Rational4_cases n1 n2 d1 d2) as [(r & Hr & _)|Hc].
  - rewrite Hr. symmetry.
    now apply (Rational4_transfer n1 n2 d1 d2 m1 m2 e1 e2).
  - destruct (Rational4_cases m1 m2 e1 e2) as [(r & Hr & _)|Hc'].
    + exfalso.
      rewrite (Rational4_transfer m1 m2 e1 e2 n1 n2 d1 d2 r) in Hc;
        try assumption; [discriminate | now symmetry].
    + now rewrite Hc, Hc'.
Qed.

(** X9. Whether a product returns, and what it returns, depends only on
    the fractions multiplied and not on how the operands write them:
    operands with no field zero and with the same products of numerators
    and of denominators, as fractions, end the same way, overflow
    included. *)
Theorem product_depends_on_fraction_only (a b a' b' : Rational) :
  operator_bool a = true -> operator_bool b = true ->
  operator_bool a' = true -> operator_bool b' = true ->
  numerator a * numerator b * (denominator a' * denominator b')
  = numerator a' * numerator b' * (denominator a * denominator b) ->
  outcome (operator_mul a b) = outcome (operator_mul a' b').
Proof.
  unfold operator_bool, operator_mul.
  rewrite !Bool.andb_true_iff, !Bool.negb_true_iff, !N.eqb_neq.
  intros [? ?] [? ?] [? ?] [? ?] Heq.
  apply Rational4_same_fraction; [tauto | intros; exact Heq].
Qed.

(** X10. Multiplication is commutative with its failures: [a * b] and
    [b * a] both fail an overflow assertion or both return the same
    value; so do [r * k] and [k * r] for a number [k] of type [T]. *)
Theorem multiplication_commutes :
  (forall a b, outcome (operator_mul a b) = outcome (operator_mul b a)) /\
  (forall r k, in_T k ->
     outcome (operator_mul_num r k) = outcome (num_mul_operator k r)).
Proof.
  split.
  - intros a b. unfold operator_mul.
    apply Rational4_same_fraction; [tauto | intros; ring].
  - intros r k Hk. unfold operator_mul_num, num_mul_operator.
    rewrite outcome_bind.
    destruct (N.eq_dec k 0) as [->|Hk0].
    { unfold Rational2. rewrite !Rational4_zero by tauto. reflexivity. }
    assert (H1 : in_T 1) by (unfold in_T in *; lia).
    destruct (Rational2_total k 1 Hk H1) as (x & Hx & Cx & Zx & Vx).
    rewrite Hx. unfold operator_mul.
    destruct (canonical_fields x Cx) as [Zn Zd].
    apply Rational4_same_fraction.
    + rewrite Zn, Zd, Zx. split; intros H; repeat destruct H as [H|H];
        try tauto; try discriminate.
    + intros. rewrite N.mul_1_r in Vx. rewrite Vx. ring.
Qed.

(** X11. Division is multiplication by the inverse: for every [a] and
    every [b] with fields of type [T], [a / b] and [a * b.inverse()] both
    fail an overflow assertion or both return the same value. *)
Theorem division_multiplies_by_inverse (a b : Rational) :
  fields_in_T b ->
  outcome (operator_div a b)
  = outcome (inv <- inverse b ;; operator_mul a inv).
Proof.
  intros [Tn Td]. rewrite outcome_bind. unfold inverse, operator_div.
  destruct (Rational2_total (denominator b) (numerator b) Td Tn)
    as (x & Hx & Cx & Zx & Vx).
  rewrite Hx. unfold operator_mul.
  destruct (canonical_fields x Cx) as [Zn Zd].
  apply Rational4_same_fraction.
  - rewrite Zn, Zd, Zx. tauto.
  - intros.
    transitivity (numerator a * denominator a
                  * (denominator b * denominator x)); [ring|].
    rewrite <- Vx. ring.
Qed.

End Fractions.

Lemma product_depends_on_fraction_only_witness :
  outcome (operator_mul (T := uint32_t) (mkRational 2 4) (mkRational 6 3))
  = outcome (operator_mul (T := uint32_t) (mkRational 1 2) (mkRational 2 1)).
Proof.
  apply (product_depends_on_fraction_only (T := uint32_t)); reflexivity.
Defined.

Lemma multiplication_commutes_witness :
  outcome (operator_mul_num (T := uint32_t) (mkRational 16 9) 3)
  = outcome (num_mul_operator (T := uint32_t) 3 (mkRational 16 9)).
Proof.
  apply (proj2 (multiplication_commutes (T := uint32_t))).
  unfold in_T. vm_compute. discriminate.
Defined.

Lemma division_multiplies_by_inverse_witness :
  outcome (operator_div (T := uint32_t) (mkRational 16 9) (mkRational 4 3))
  = outcome (inv <- inverse (T := uint32_t) (mkRational 4 3) ;;
             operator_mul (mkRational 16 9) inv).
Proof.
  apply (division_multiplies_by_inverse (T := uint32_t)).
  split; unfold in_T; vm_compute; discriminate.
Defined.

Section Algebra.

Context {T : UnsignedT}.

Lemma operator_bool_canonical (r : Rational) :
  canonical r -> (operator_bool r = false <-> r = zero).
Proof.
  intros Cr. destruct (canonical_fields r Cr) as [Zn Zd].
  unfold operator_bool.
  rewrite Bool.andb_false_iff, !Bool.negb_false_iff, !N.eqb_eq. tauto.
Qed.

Lemma operator_bool_fields (r : Rational) :
  operator_bool r = false <-> numerator r = 0 \/ denominator r = 0.
Proof.
  unfold operator_bool.
  rewrite Bool.andb_false_iff, !Bool.negb_false_iff, !N.eqb_eq. tauto.
Qed.

(** X12. Multiplication is associative as far as the inner products go:
    when [a * b] and [b * c] both return, [(a * b) * c] and [a * (b * c)]
    both fail an overflow assertion or both return the same value. *)
Theorem multiplication_associates (a b c ab bc : Rational) :
  outcome (operator_mul a b) = Done ab ->
  outcome (operator_mul b c) = Done bc ->
  outcome (operator_mul ab c) = outcome (operator_mul a bc).
Proof.
  unfold operator_mul. intros Hab Hbc.
  destruct (Rational4_cases (numerator a) (numerator b)
                            (denominator a) (denominator b))
    as [(r & Hr & Cab & _ & Zab & Vab)|Hc]; [|congruence].
  assert (r = ab) by congruence. subst r. clear Hr.
  destruct (Rational4_cases (numerator b) (numerator c)
                            (denominator b) (denominator c))
    as [(r & Hr & Cbc & _ & Zbc & Vbc)|Hc]; [|congruence].
  assert (r = bc) by congruence. subst r. clear Hr.
  destruct (canonical_fields ab Cab) as [Zn1 Zd1].
  destruct (canonical_fields bc Cbc) as [Zn2 Zd2].
  apply Rational4_same_fraction.
  - rewrite Zn1, Zd1, Zn2, Zd2, Zab, Zbc. tauto.
  - intros Hn1 Hc1 Hd1 Hc2.
    assert (Hb : denominator b <> 0) by tauto.
    apply (N.mul_cancel_r _ _ (denominator b) Hb).
    transitivity (numerator ab * (denominator a * denominator b)
                  * (numerator c * denominator bc)); [ring|].
    rewrite Vab.
    transitivity (numerator a * denominator ab
                  * (numerator b * numerator c * denominator bc)); [ring|].
    rewrite <- Vbc. ring.
Qed.

(** X13. On constructed values [==] is the equality of fractions: for
    numerators and denominators of type [T], the denominators not zero,
    [Rational(n1, d1) == Rational(n2, d2)] exactly when
    [n1 * d2 = n2 * d1]; and [!=] is its negation. *)
Theorem equality_compares_fractions (n1 d1 n2 d2 : N) :
  in_T n1 -> in_T d1 -> in_T n2 -> in_T d2 -> d1 <> 0 -> d2 <> 0 ->
  exists r1 r2,
    outcome (Rational2 n1 d1) = Done r1 /\
    outcome (Rational2 n2 d2) = Done r2 /\
    (operator_eq r1 r2 = true <-> n1 * d2 = n2 * d1) /\
    (operator_ne r1 r2 = true <-> n1 * d2 <> n2 * d1).
Proof.
  intros Tn1 Td1 Tn2 Td2 Hd1 Hd2.
  destruct (Rational2_total n1 d1 Tn1 Td1) as (r1 & H1 & C1 & Z1 & V1).
  destruct (Rational2_total n2 d2 Tn2 Td2) as (r2 & H2 & C2 & Z2 & V2).
  exists r1, r2. split; [exact H1|]. split; [exact H2|].
  assert (Heq : operator_eq r1 r2 = true <-> n1 * d2 = n2 * d1).
  { unfold operator_eq. rewrite Bool.andb_true_iff, !N.eqb_eq. split.
    - intros [En Ed].
      destruct C1 as [->|(Hp1 & Hq1 & _)].
      + assert (n1 = 0) by tauto. subst n1.
        simpl in En, Ed.
        assert (r2 = zero) by (destruct r2; simpl in *; subst; reflexivity).
        assert (n2 = 0) by tauto. subst n2. reflexivity.
      + apply (N.mul_cancel_r _ _ (denominator r1) Hq1).
        transitivity (numerator r1 * d1 * d2); [rewrite V1; ring|].
        rewrite En. transitivity (numerator r2 * d2 * d1); [ring|].
        rewrite V2, Ed. ring.
    - intros Hx.
      destruct (N.eq_dec n1 0) as [->|Hn1].
      + assert (n2 = 0).
        { simpl in Hx. symmetry in Hx. apply N.eq_mul_0 in Hx. tauto. }
        subst n2.
        assert (E1 : r1 = zero) by tauto. assert (E2 : r2 = zero) by tauto.
        subst. split; reflexivity.
      + assert (Hn2 : n2 <> 0).
        { intros ->. simpl in Hx. apply N.eq_mul_0 in Hx. tauto. }
        destruct C1 as [E1|(Hp1 & Hq1 & G1)]; [tauto|].
        destruct C2 as [E2|(Hp2 & Hq2 & G2)]; [tauto|].
        apply lowest_terms_unique; try assumption.
        assert (Hk : d1 * n2 <> 0).
        { intros H0. apply N.eq_mul_0 in H0. tauto. }
        apply (N.mul_cancel_r _ _ (d1 * n2) Hk).
        transitivity (numerator r1 * d1 * (n2 * denominator r2)); [ring|].
        rewrite V1, <- V2.
        transitivity (n1 * d2 * (denominator r1 * numerator r2)); [ring|].
        rewrite Hx. ring. }
  split; [exact Heq|].
  unfold operator_ne. rewrite Bool.negb_true_iff, <- Heq.
  destruct (operator_eq r1 r2); split; congruence.
Qed.

(** X14. A product or a quotient that returns is true as a [bool]
    exactly when both operands are: a zero field in either operand gives
    the canonical zero, and nothing else does. *)
Theorem truth_of_products (a b r : Rational) :
  (outcome (operator_mul a b) = Done r ->
   operator_bool r = operator_bool a && operator_bool b) /\
  (outcome (operator_div a b) = Done r ->
   operator_bool r = operator_bool a && operator_bool b).
Proof.
  assert (H4 : forall n1 n2 d1 d2,
             outcome (Rational4 n1 n2 d1 d2) = Done r ->
             (operator_bool r = false <->
              n1 = 0 \/ n2 = 0 \/ d1 = 0 \/ d2 = 0)).
  { intros n1 n2 d1 d2 Hr.
    destruct (Rational4_cases n1 n2 d1 d2)
      as [(r' & Hr' & Cr & _ & Zr & _)|Hc]; [|congruence].
    assert (r' = r) by congruence. subst r'.
    now rewrite (operator_bool_canonical r Cr). }
  assert (Hand : forall x y z : bool,
             (x = false <-> y = false \/ z = false) -> x = y && z).
  { intros [] [] []; simpl; intuition congruence. }
  split; intros Hr; apply H4 in Hr; apply Hand;
    rewrite Hr, !operator_bool_fields; tauto.
Qed.

End Algebra.

Lemma multiplication_associates_witness :
  outcome (operator_mul (T := uint32_t) (mkRational 8 15) (mkRational 7 4))
  = outcome (operator_mul (T := uint32_t) (mkRational 2 3) (mkRational 7 5)).
Proof.
  apply (multiplication_associates (T := uint32_t)
           (mkRational 2 3) (mkRational 4 5) (mkRational 7 4)
           (mkRational 8 15) (mkRational 7 5)); reflexivity.
Defined.

Lemma equality_compares_fractions_witness :
  exists r1 r2,
    outcome (Rational2 (T := uint32_t) 2 4) = Done r1 /\
    outcome (Rational2 (T := uint32_t) 3 6) = Done r2 /\
    (operator_eq r1 r2 = true <-> 2 * 6 = 3 * 4) /\
    (operator_ne r1 r2 = true <-> 2 * 6 <> 3 * 4).
Proof.
  apply (equality_compares_fractions (T := uint32_t) 2 4 3 6);
    unfold in_T; vm_compute; discriminate.
Defined.

Lemma truth_of_products_witness :
  operator_bool (mkRational 4 3)
  = operator_bool (mkRational 16 9) && operator_bool (mkRational 3 4).
Proof.
  apply (proj1 (truth_of_products (T := uint32_t)
                  (mkRational 16 9) (mkRational 3 4) (mkRational 4 3))).
  reflexivity.
Defined.

Section Units.

Context {T : UnsignedT}.

Lemma Rational2_reduced (p q : N) :
  p <> 0 -> q <> 0 -> N.gcd p q = 1 -> in_T p -> in_T q ->
  outcome (Rational2 p q) = Done (mkRational p q).
Proof.
  intros Hp Hq Hg Tp Tq. unfold Rational2.
  apply Rational4_value; try assumption; try discriminate. ring.
Qed.

(** X15. For every value [a] with fields of type [T], [a.inverse()]
    returns: the canonical zero when a field of [a] is zero, and otherwise
    the reciprocal fraction in lowest terms.  On a value in the
    constructor's form the inverse just exchanges the fields, and the
    inverse of the inverse is the value itself. *)
Theorem inverse_is_reciprocal (a : Rational) :
  fields_in_T a ->
  exists r,
    outcome (inverse a) = Done r /\
    canonical r /\
    (r = zero <-> operator_bool a = false) /\
    numerator r * numerator a = denominator a * denominator r /\
    (canonical a ->
     r = mkRational (denominator a) (numerator a) /\
     outcome (inverse r) = Done a).
Proof.
  intros [Tn Td]. unfold inverse.
  destruct (Rational2_total (denominator a) (numerator a) Td Tn)
    as (r & Hr & Cr & Zr & Vr).
  exists r. split; [exact Hr|]. split; [exact Cr|].
  split; [rewrite operator_bool_fields; tauto|]. split; [exact Vr|].
  intros [->|(Hn & Hd & Hg)].
  - simpl in *. assert (r = zero) by tauto. subst r.
    split; reflexivity.
  - assert (E : r = mkRational (denominator a) (numerator a)).
    { rewrite (Rational2_reduced (denominator a) (numerator a)) in Hr;
        try assumption; [congruence | now rewrite N.gcd_comm]. }
    subst r. split; [reflexivity|]. simpl.
    rewrite Rational2_reduced by assumption. now destruct a.
Qed.

(** X16. A value in the constructor's form with fields of type [T] is
    what the constructor returns for its own fields, and so what
    multiplying or dividing it by the number one returns. *)
Theorem constructed_values_are_fixed (r : Rational) :
  canonical r -> fields_in_T r ->
  outcome (Rational2 (numerator r) (denominator r)) = Done r /\
  outcome (operator_mul_num r 1) = Done r /\
  outcome (operator_div_num r 1) = Done r /\
  outcome (operator_mul r (mkRational 1 1)) = Done r.
Proof.
  intros Cr [Tn Td].
  assert (H : outcome (Rational4 (numerator r) 1 (denominator r) 1) = Done r).
  { destruct Cr as [->|(Hn & Hd & Hg)].
    - reflexivity.
    - change (outcome (Rational2 (numerator r) (denominator r)) = Done r).
      rewrite Rational2_reduced by assumption. now destruct r. }
  repeat split; exact H.
Qed.

(** X17. For [n] and [d] of type [T], neither zero, the truncated value
    of [Rational(n, d)] is the quotient [n / d] rounded down: reducing
    does not change it.  With [n] zero and [d] not, the constructor
    returns [{0, 0}] and [truncate] divides by zero. *)
Theorem truncate_of_constructed (n d : N) :
  in_T n -> in_T d -> d <> 0 ->
  (n <> 0 -> outcome (r <- Rational2 n d ;; truncate r) = Done (n / d)) /\
  (n = 0 -> outcome (r <- Rational2 n d ;; truncate r) = Crash DivisionByZero).
Proof.
  intros Tn Td Hd. rewrite outcome_bind.
  destruct (Rational2_total n d Tn Td) as (r & Hr & Cr & Zr & Vr).
  rewrite Hr. split; intros Hn.
  - destruct Cr as [->|(Hp & Hq & _)]; [tauto|].
    unfold truncate. rewrite divide_nonzero by exact Hq.
    unfold outcome, ret; simpl. f_equal.
    rewrite <- (N.Div0.div_mul_cancel_r (numerator r) (denominator r) d)
      by assumption.
    rewrite Vr, (N.mul_comm (denominator r) d).
    now apply N.Div0.div_mul_cancel_r.
  - assert (r = zero) by tauto. subst r. reflexivity.
Qed.

(** X18. For [n] and [d] of type [T], neither zero, [Rational(n, d) * d]
    returns [n / 1] and never overflows, so its truncated value is [n]. *)
Theorem times_denominator_gives_numerator (n d : N) :
  in_T n -> in_T d -> n <> 0 -> d <> 0 ->
  outcome (r <- Rational2 n d ;; operator_mul_num r d) = Done (mkRational n 1) /\
  outcome (r <- Rational2 n d ;; p <- operator_mul_num r d ;; truncate p)
  = Done n.
Proof.
  intros Tn Td Hn Hd.
  destruct (Rational2_total n d Tn Td) as (r & Hr & Cr & Zr & Vr).
  destruct Cr as [->|(Hp & Hq & _)]; [tauto|].
  assert (H1 : in_T 1) by (unfold in_T in *; lia).
  assert (Hm : outcome (operator_mul_num r d) = Done (mkRational n 1)).
  { unfold operator_mul_num.
    apply Rational4_value; try assumption; try discriminate.
    - apply N.divide_1_r, N.gcd_divide_r.
    - rewrite !N.mul_1_r, Vr. ring. }
  rewrite !outcome_bind, Hr, ?outcome_bind, Hm.
  split; [reflexivity|]. simpl. now rewrite N.div_1_r.
Qed.

End Units.

Lemma inverse_is_reciprocal_witness :
  exists r,
    outcome (inverse (T := uint32_t) (mkRational 6 4)) = Done r /\
    numerator r * 6 = 4 * denominator r.
Proof.
  destruct (inverse_is_reciprocal (T := uint32_t) (mkRational 6 4))
    as (r & Hr & _ & _ & Hv & _).
  - split; unfold in_T; vm_compute; discriminate.
  - exists r. split; [exact Hr | exact Hv].
Defined.

Lemma constructed_values_are_fixed_witness :
  outcome (operator_mul (T := uint32_t) (mkRational 16 9) (mkRational 1 1))
  = Done (mkRational 16 9).
Proof.
  apply (constructed_values_are_fixed (T := uint32_t) (mkRational 16 9)).
  - right. repeat split; discriminate.
  - split; unfold in_T; vm_compute; discriminate.
Defined.

Lemma truncate_of_constructed_witness :
  outcome (r <- Rational2 (T := uint32_t) 1920 1080 ;; truncate r)
  = Done (1920 / 1080).
Proof.
  apply (proj1 (truncate_of_constructed (T := uint32_t) 1920 1080
                  ltac:(unfold in_T; vm_compute; discriminate)
                  ltac:(unfold in_T; vm_compute; discriminate)
                  ltac:(discriminate))).
  discriminate.
Defined.

Lemma times_denominator_gives_numerator_witness :
  outcome (r <- Rational2 (T := uint32_t) 1920 1080 ;;
           p <- operator_mul_num r 1080 ;; truncate p)
  = Done 1920.
Proof.
  apply (times_denominator_gives_numerator (T := uint32_t) 1920 1080);
    try discriminate; unfold in_T; vm_compute; discriminate.
Defined.
